(** * RPM-To-Locked-Rotor: tick clock and per-channel locked-rotor detector

    Shallow embedding of [src/jiffies.c] (the [jiffies()] tick clock built on
    the 8-bit TIMER0 and its overflow interrupt) and of [src/main.c] (the
    per-channel state machine [fsm_run]), followed by the properties of the
    specification.

    Integers of the C code are modelled as [Z] with the wrap-around of their
    type written out; the I/O registers [DDRB] and [PINB] are 8-bit values
    handled with the bit operations of [Z]. *)

From Stdlib Require Import ZArith NArith List Bool Lia Sorted.
Import ListNotations.

Open Scope Z_scope.

(** ** Parameters declared in [jiffies.h]

    [jiffies.h] declares the tick type [jiffies_t] and the constant
    [JIFFIES_PER_SECOND]. The development is parametric in the width of
    [jiffies_t] and in the value of [JIFFIES_PER_SECOND]. *)

Section Firmware.

Variable jiffies_bits : Z.
Variable JIFFIES_PER_SECOND : Z.

(** Conversion of a mathematical integer to [jiffies_t]. *)
Definition jiffies_wrap (x : Z) : Z := x mod 2 ^ jiffies_bits.

(** [a - b] computed in [jiffies_t]. *)
Definition jiffies_sub (a b : Z) : Z := jiffies_wrap (a - b).

(** ** TIMER0 and the interrupt system (the part [jiffies.c] programs) *)

Record timer0 : Type := mkTimer0 {
  TCCR0A : Z;
  TCCR0B : Z;            (* clock select; 0 stops the counter *)
  TCNT0 : Z;             (* 8-bit free-running counter *)
  TOV0 : bool;           (* overflow flag, a bit of TIFR *)
  TOIE0 : bool;          (* overflow interrupt enable, a bit of TIMSK *)
  SREG_I : bool;         (* global interrupt enable *)
  timer_ticks_hi : Z     (* static jiffies_t timer_ticks_hi *)
}.

Definition timer_running (h : timer0) : bool := negb (Z.land (TCCR0B h) 7 =? 0).

(** One period of the counter clock: the counter advances and sets [TOV0]
    when it wraps from 255 to 0. *)
Definition timer_clock (h : timer0) : timer0 :=
  if timer_running h then
    if TCNT0 h =? 255
    then mkTimer0 (TCCR0A h) (TCCR0B h) 0 true (TOIE0 h) (SREG_I h) (timer_ticks_hi h)
    else mkTimer0 (TCCR0A h) (TCCR0B h) (TCNT0 h + 1) (TOV0 h) (TOIE0 h) (SREG_I h)
           (timer_ticks_hi h)
  else h.

(** [ISR(TIMER0_OVF_vect)]: [timer_ticks_hi += 256u]. The hardware clears
    [TOV0] when it enters the vector. *)
Definition TIMER0_OVF_vect (h : timer0) : timer0 :=
  mkTimer0 (TCCR0A h) (TCCR0B h) (TCNT0 h) false (TOIE0 h) (SREG_I h)
    (jiffies_wrap (timer_ticks_hi h + 256)).

(** A pending overflow interrupt is served as soon as interrupts are enabled. *)
Definition irq_dispatch (h : timer0) : timer0 :=
  if SREG_I h && TOIE0 h && TOV0 h then TIMER0_OVF_vect h else h.

Definition hw_tick (h : timer0) : timer0 := irq_dispatch (timer_clock h).

(** [n] periods of the counter clock go by. *)
Definition elapse (n : N) (h : timer0) : timer0 := N.iter n hw_tick h.

(** [spin_lock_irqsave] and [spin_unlock_irqrestore] of [platform.h]; of the
    saved [SREG] only the interrupt enable matters here. *)
Definition spin_lock_irqsave (h : timer0) : bool * timer0 :=
  (SREG_I h,
   mkTimer0 (TCCR0A h) (TCCR0B h) (TCNT0 h) (TOV0 h) (TOIE0 h) false (timer_ticks_hi h)).

Definition spin_unlock_irqrestore (flags : bool) (h : timer0) : timer0 :=
  irq_dispatch
    (mkTimer0 (TCCR0A h) (TCCR0B h) (TCNT0 h) (TOV0 h) (TOIE0 h) flags (timer_ticks_hi h)).

(** [jiffies_init]: runs with interrupts masked; stops the counter, zeroes it,
    clears the overflow flag, enables the overflow interrupt, zeroes the
    accumulator and starts the counter. *)
Definition jiffies_init (h : timer0) : timer0 :=
  let (flags, h1) := spin_lock_irqsave h in
  spin_unlock_irqrestore flags
    (mkTimer0 0 3 0 false true (SREG_I h1) 0).

(** The main program and the counter run side by side. A [world] is the
    hardware together with the schedule of the counter: [pending] lists, for
    each register read still to come, how many counter periods go by before
    it. [elapsed] is a ghost field: the number of counter periods gone by so
    far. *)
Record world : Type := mkWorld {
  hw : timer0;
  pending : list N;
  elapsed : Z
}.

Definition wait (w : world) : world :=
  match pending w with
  | [] => w
  | d :: s => mkWorld (elapse d (hw w)) s (elapsed w + Z.of_N d)
  end.

(** The [do { ... } while (tifr_before != tifr_after)] loop of [jiffies];
    it returns the last [tifr_before] and [tcnt]. *)
Fixpoint jiffies_loop (fuel : nat) (w : world) : option (bool * Z * world) :=
  match fuel with
  | O => None
  | S fuel' =>
      let w1 := wait w in
      let tifr_before := TOV0 (hw w1) in
      let w2 := wait w1 in
      let tcnt := TCNT0 (hw w2) in
      let w3 := wait w2 in
      let tifr_after := TOV0 (hw w3) in
      if Bool.eqb tifr_before tifr_after
      then Some (tifr_before, tcnt, w3)
      else jiffies_loop fuel' w3
  end.

Definition jiffies (fuel : nat) (w : world) : option (Z * world) :=
  let (flags, h1) := spin_lock_irqsave (hw w) in
  match jiffies_loop fuel (mkWorld h1 (pending w) (elapsed w)) with
  | None => None
  | Some (tifr_before, tcnt, w3) =>
      let ret := jiffies_wrap (timer_ticks_hi (hw w3) + tcnt) in
      let h4 := spin_unlock_irqrestore flags (hw w3) in
      let ret := if tifr_before then jiffies_wrap (ret + 256) else ret in
      Some (ret, mkWorld h4 (pending w3) (elapsed w3))
  end.

(** A session of the clock: [jiffies_init], then one [jiffies()] call per
    entry [(before, inside)] of the list: [before] counter periods go by
    between the previous call and this one, and [inside] schedules the
    counter against the register reads of the call. The session returns the
    values of the calls, each with the ghost times at which the call began
    and ended. *)
Fixpoint jiffies_calls (fuel : nat) (h : timer0) (t : Z) (calls : list (N * list N))
  : option (list (Z * Z * Z)) :=
  match calls with
  | [] => Some []
  | (before, inside) :: rest =>
      let h1 := elapse before h in
      let t1 := t + Z.of_N before in
      match jiffies fuel (mkWorld h1 inside t1) with
      | None => None
      | Some (ret, w') =>
          match jiffies_calls fuel (hw w') (elapsed w') rest with
          | None => None
          | Some l => Some ((t1, ret, elapsed w') :: l)
          end
      end
  end.

Definition jiffies_session (fuel : nat) (h0 : timer0) (calls : list (N * list N))
  : option (list (Z * Z * Z)) :=
  jiffies_calls fuel (jiffies_init h0) 0 calls.

(** ** The channel detector ([main.c]) *)

Definition POWER_ON_JIFFIES : Z := 0.
Definition SAMPLE_JIFFIES : Z := JIFFIES_PER_SECOND.
Definition SPIN_UP_JIFFIES : Z := SAMPLE_JIFFIES * 5.
Definition TOGGLE_COUNT_THRESHOLD : Z := 40.
Definition NUM_CHANNELS : nat := 2.

(** Bit numbers of port B, from the device header of avr-libc. *)
Definition PINB0 : Z := 0.
Definition PINB1 : Z := 1.
Definition PINB2 : Z := 2.
Definition PINB3 : Z := 3.

(** [enum fsm_state]; the field is an integer and may hold any value. *)
Abbreviation FSM_STATE_INIT := 0%Z (only parsing).
Abbreviation FSM_STATE_POWER_ON := 1%Z (only parsing).
Abbreviation FSM_STATE_SPIN_UP := 2%Z (only parsing).
Abbreviation FSM_STATE_RUNNING := 3%Z (only parsing).

Record rpm_to_locked_rotor_channel : Type := mkChannel {
  state : Z;
  time : Z;
  prev_sample_time : Z;
  under_threshold : bool;
  prev_input_state : bool;
  toggles : Z
}.

Record rpm_to_locked_rotor_app : Type := mkApp {
  channels : list rpm_to_locked_rotor_channel
}.

Definition set_state (v : Z) (c : rpm_to_locked_rotor_channel) :=
  mkChannel v (time c) (prev_sample_time c) (under_threshold c) (prev_input_state c)
    (toggles c).
Definition set_time (v : Z) (c : rpm_to_locked_rotor_channel) :=
  mkChannel (state c) v (prev_sample_time c) (under_threshold c) (prev_input_state c)
    (toggles c).
Definition set_prev_sample_time (v : Z) (c : rpm_to_locked_rotor_channel) :=
  mkChannel (state c) (time c) v (under_threshold c) (prev_input_state c) (toggles c).
Definition set_under_threshold (v : bool) (c : rpm_to_locked_rotor_channel) :=
  mkChannel (state c) (time c) (prev_sample_time c) v (prev_input_state c) (toggles c).
Definition set_prev_input_state (v : bool) (c : rpm_to_locked_rotor_channel) :=
  mkChannel (state c) (time c) (prev_sample_time c) (under_threshold c) v (toggles c).
Definition set_toggles (v : Z) (c : rpm_to_locked_rotor_channel) :=
  mkChannel (state c) (time c) (prev_sample_time c) (under_threshold c)
    (prev_input_state c) v.

(** [static struct rpm_to_locked_rotor_app g_inst]: zero at start-up. *)
Definition channel_zero : rpm_to_locked_rotor_channel :=
  mkChannel FSM_STATE_INIT 0 0 false false 0.
Definition g_inst : rpm_to_locked_rotor_app :=
  mkApp (repeat channel_zero NUM_CHANNELS).

(** Values stored to an 8-bit register, and [uint32_t] arithmetic. *)
Definition uint8 (x : Z) : Z := x mod 2 ^ 8.
Definition uint32 (x : Z) : Z := x mod 2 ^ 32.

(** [read_input]: the level of the channel's input pin, given the value
    read from [PINB]. *)
Definition read_input (channel : nat) (pinb : Z) : bool :=
  if (channel =? 0)%nat
  then negb (Z.land pinb (Z.shiftl 1 PINB2) =? 0)
  else negb (Z.land pinb (Z.shiftl 1 PINB3) =? 0).

(** [float_high]: the pin becomes an input (Hi-Z). *)
Definition float_high (channel : nat) (ddrb : Z) : Z :=
  if (channel =? 0)%nat
  then uint8 (Z.land ddrb (Z.lnot (Z.shiftl 1 PINB0)))
  else uint8 (Z.land ddrb (Z.lnot (Z.shiftl 1 PINB1))).

(** [drive_low]: the pin becomes an output; its port bit is 0. *)
Definition drive_low (channel : nat) (ddrb : Z) : Z :=
  if (channel =? 0)%nat
  then uint8 (Z.lor ddrb (Z.shiftl 1 PINB0))
  else uint8 (Z.lor ddrb (Z.shiftl 1 PINB1)).

(** The output pin of a channel, as read off [DDRB]. *)
Definition out_pin (channel : nat) : Z :=
  if (channel =? 0)%nat then PINB0 else PINB1.
Definition driven_low (channel : nat) (ddrb : Z) : bool := Z.testbit ddrb (out_pin channel).
Definition floating_high (channel : nat) (ddrb : Z) : bool :=
  negb (Z.testbit ddrb (out_pin channel)).

(** The body of the [switch] of [fsm_run] for channel [i]: [curr_time] is the
    value [jiffies()] returned, [pinb] the value of [PINB] if the channel
    reads its input. *)
Definition fsm_channel (i : nat) (curr_time pinb : Z)
    (channel : rpm_to_locked_rotor_channel) (ddrb : Z)
  : rpm_to_locked_rotor_channel * Z :=
  match state channel with
  | FSM_STATE_INIT =>
      let channel := set_time curr_time channel in
      let channel := set_state FSM_STATE_POWER_ON channel in
      (channel, ddrb)
  | FSM_STATE_POWER_ON =>
      if jiffies_sub curr_time (time channel) >? POWER_ON_JIFFIES then
        let ddrb := drive_low i ddrb in
        let channel := set_state FSM_STATE_SPIN_UP channel in
        let channel := set_time curr_time channel in
        let channel := set_prev_sample_time curr_time channel in
        (channel, ddrb)
      else (channel, ddrb)
  | FSM_STATE_SPIN_UP =>
      let curr_input := read_input i pinb in
      let channel :=
        if negb (Bool.eqb curr_input (prev_input_state channel)) then
          let channel := set_toggles (uint32 (toggles channel + 1)) channel in
          set_prev_input_state curr_input channel
        else channel in
      let channel :=
        if jiffies_sub curr_time (prev_sample_time channel) >? SAMPLE_JIFFIES then
          let channel :=
            if toggles channel >=? TOGGLE_COUNT_THRESHOLD
            then set_under_threshold false channel
            else set_under_threshold true channel in
          let channel := set_toggles 0 channel in
          set_prev_sample_time curr_time channel
        else channel in
      let channel :=
        if jiffies_sub curr_time (time channel) >? SPIN_UP_JIFFIES
        then set_state FSM_STATE_RUNNING channel
        else channel in
      (channel, ddrb)
  | FSM_STATE_RUNNING =>
      let curr_input := read_input i pinb in
      let channel :=
        if negb (Bool.eqb curr_input (prev_input_state channel)) then
          let channel := set_toggles (uint32 (toggles channel + 1)) channel in
          set_prev_input_state curr_input channel
        else channel in
      let channel :=
        if jiffies_sub curr_time (prev_sample_time channel) >? SAMPLE_JIFFIES then
          let channel :=
            if toggles channel >=? TOGGLE_COUNT_THRESHOLD
            then set_under_threshold false channel
            else set_under_threshold true channel in
          let channel := set_toggles 0 channel in
          set_prev_sample_time curr_time channel
        else channel in
      let ddrb :=
        if under_threshold channel then float_high i ddrb else drive_low i ddrb in
      (channel, ddrb)
  | _ =>
      (channel, float_high i ddrb)
  end.

(** Store to [inst->channels[i]]. *)
Fixpoint store_channel (i : nat) (c : rpm_to_locked_rotor_channel)
    (l : list rpm_to_locked_rotor_channel) : list rpm_to_locked_rotor_channel :=
  match l, i with
  | [], _ => []
  | _ :: l', O => c :: l'
  | x :: l', S i' => x :: store_channel i' c l'
  end.

(** The [for (i = 0; i < NUM_CHANNELS; i++)] loop of [fsm_run], run for [n]
    more channels from index [i]. [pinb i] is the value of [PINB] at the
    time channel [i] is served. *)
Fixpoint fsm_for (n i : nat) (curr_time : Z) (pinb : nat -> Z)
    (st : rpm_to_locked_rotor_app * Z) : rpm_to_locked_rotor_app * Z :=
  match n with
  | O => st
  | S n' =>
      let (inst, ddrb) := st in
      match nth_error (channels inst) i with
      | Some channel =>
          let (channel', ddrb') := fsm_channel i curr_time (pinb i) channel ddrb in
          fsm_for n' (S i) curr_time pinb
            (mkApp (store_channel i channel' (channels inst)), ddrb')
      | None => fsm_for n' (S i) curr_time pinb st
      end
  end.

(** [fsm_run] once [curr_time = jiffies()] is known. *)
Definition fsm_run_at (curr_time : Z) (pinb : nat -> Z)
    (st : rpm_to_locked_rotor_app * Z) : rpm_to_locked_rotor_app * Z :=
  fsm_for NUM_CHANNELS 0 curr_time pinb st.

(** [fsm_run]: one pass of the main loop over the clock and the channels. *)
Definition fsm_run (fuel : nat) (w : world) (pinb : nat -> Z)
    (st : rpm_to_locked_rotor_app * Z)
  : option (world * (rpm_to_locked_rotor_app * Z)) :=
  match jiffies fuel w with
  | None => None
  | Some (curr_time, w') => Some (w', fsm_run_at curr_time pinb st)
  end.

(** Successive passes of the main loop, given the clock value and the port
    values of each pass. *)
Fixpoint fsm_steps (l : list (Z * (nat -> Z))) (st : rpm_to_locked_rotor_app * Z)
  : rpm_to_locked_rotor_app * Z :=
  match l with
  | [] => st
  | (curr_time, pinb) :: l' => fsm_steps l' (fsm_run_at curr_time pinb st)
  end.

(** The same for one channel alone. *)
Fixpoint channel_steps (i : nat) (l : list (Z * Z))
    (channel : rpm_to_locked_rotor_channel) (ddrb : Z)
  : rpm_to_locked_rotor_channel * Z :=
  match l with
  | [] => (channel, ddrb)
  | (curr_time, pinb) :: l' =>
      let (channel', ddrb') := fsm_channel i curr_time pinb channel ddrb in
      channel_steps i l' channel' ddrb'
  end.

(** Sum of a schedule, and the number of counter periods of a session. *)
Definition schedule_ticks (l : list N) : Z := fold_right (fun d acc => Z.of_N d + acc) 0 l.

Fixpoint session_ticks (calls : list (N * list N)) : Z :=
  match calls with
  | [] => 0
  | (before, inside) :: rest => Z.of_N before + schedule_ticks inside + session_ticks rest
  end.

(** The results of a session started at ghost time [t] are linearizable:
    every call returns, converted to [jiffies_t], the number of counter
    periods gone by at some instant between its beginning and its end, and
    the calls follow one another in time. *)
Fixpoint linearized (t : Z) (res : list (Z * Z * Z)) : Prop :=
  match res with
  | [] => True
  | (t1, ret, t2) :: rest =>
      t <= t1 /\ (exists u, t1 <= u <= t2 /\ ret = jiffies_wrap u) /\ linearized t2 rest
  end.

Definition returned (res : list (Z * Z * Z)) : list Z := map (fun r => snd (fst r)) res.

(** Channel [i] of the instance, and its state field. *)
Definition channel_at (i : nat) (st : rpm_to_locked_rotor_app * Z)
  : option rpm_to_locked_rotor_channel :=
  nth_error (channels (fst st)) i.

Definition state_at (i : nat) (st : rpm_to_locked_rotor_app * Z) : option Z :=
  option_map state (channel_at i st).

(** The instance has its [NUM_CHANNELS] channels. *)
Definition well_formed (st : rpm_to_locked_rotor_app * Z) : Prop :=
  length (channels (fst st)) = NUM_CHANNELS.

(** The inputs of channel [i] in a run of the main loop. *)
Definition channel_inputs (i : nat) (l : list (Z * (nat -> Z))) : list (Z * Z) :=
  map (fun s => (fst s, snd s i)) l.

(** The sampling step as the specification words it: count a toggle when
    the input level differs from the previous one; at a window boundary
    latch the verdict, clear the count and restart the window. *)
Definition spec_count_toggle (curr_input : bool) (c : rpm_to_locked_rotor_channel)
  : rpm_to_locked_rotor_channel :=
  if Bool.eqb curr_input (prev_input_state c) then c
  else mkChannel (state c) (time c) (prev_sample_time c) (under_threshold c) curr_input
         (uint32 (toggles c + 1)).

Definition window_boundary (curr_time : Z) (c : rpm_to_locked_rotor_channel) : bool :=
  jiffies_sub curr_time (prev_sample_time c) >? SAMPLE_JIFFIES.

Definition spec_sampling_step (curr_time : Z) (curr_input : bool)
    (c : rpm_to_locked_rotor_channel) : rpm_to_locked_rotor_channel :=
  let c1 := spec_count_toggle curr_input c in
  if window_boundary curr_time c1
  then mkChannel (state c1) (time c1) curr_time (toggles c1 <? TOGGLE_COUNT_THRESHOLD)
         (prev_input_state c1) 0
  else c1.

(** The sampling fields of a channel: window start, verdict, previous input
    level and toggle count. *)
Definition sampling_fields (c : rpm_to_locked_rotor_channel) : Z * bool * bool * Z :=
  (prev_sample_time c, under_threshold c, prev_input_state c, toggles c).

(** The sampling step alone, folded over a run. *)
Fixpoint spec_sampling_steps (i : nat) (l : list (Z * Z)) (c : rpm_to_locked_rotor_channel)
  : rpm_to_locked_rotor_channel :=
  match l with
  | [] => c
  | (curr_time, pinb) :: l' =>
      spec_sampling_steps i l' (spec_sampling_step curr_time (read_input i pinb) c)
  end.

(** Number of level changes in a sequence of input levels read after [prev]. *)
Fixpoint level_changes (prev : bool) (levels : list bool) : Z :=
  match levels with
  | [] => 0
  | x :: rest => (if Bool.eqb x prev then 0 else 1) + level_changes x rest
  end.

(** The only moves of the state field: stay, or go one state forward. *)
Definition fsm_next (s s' : Z) : Prop :=
  s' = s \/
  (s = FSM_STATE_INIT /\ s' = FSM_STATE_POWER_ON) \/
  (s = FSM_STATE_POWER_ON /\ s' = FSM_STATE_SPIN_UP) \/
  (s = FSM_STATE_SPIN_UP /\ s' = FSM_STATE_RUNNING).

Definition valid_state (s : Z) : Prop :=
  s = FSM_STATE_INIT \/ s = FSM_STATE_POWER_ON \/ s = FSM_STATE_SPIN_UP \/
  s = FSM_STATE_RUNNING.

Definition sampling_state (s : Z) : Prop :=
  s = FSM_STATE_SPIN_UP \/ s = FSM_STATE_RUNNING.

(** The verdict [u] was latched during the run [l] of channel [i] from
    [c0]: some step of the run was a window boundary, and [u] is the
    comparison it made. *)
Definition latched_in (i : nat) (l : list (Z * Z)) (c0 : rpm_to_locked_rotor_channel)
    (ddrb : Z) (u : bool) : Prop :=
  exists l1 t p l2,
    l = l1 ++ (t, p) :: l2 /\
    let c1 := fst (channel_steps i l1 c0 ddrb) in
    sampling_state (state c1) /\
    window_boundary t c1 = true /\
    u = ((if Bool.eqb (read_input i p) (prev_input_state c1)
          then toggles c1 else uint32 (toggles c1 + 1)) <? TOGGLE_COUNT_THRESHOLD).

(** The input pin of a channel, as [read_input] selects it. *)
Definition in_pin (channel : nat) : Z :=
  if (channel =? 0)%nat then PINB2 else PINB3.

(** The fields of a channel that time alone moves. *)
Definition timing_fields (c : rpm_to_locked_rotor_channel) : Z * Z * Z :=
  (state c, time c, prev_sample_time c).

(** The clock values and input levels of channel [i] in a run. *)
Definition channel_levels (i : nat) (l : list (Z * Z)) : list (Z * bool) :=
  map (fun s => (fst s, read_input i (snd s))) l.

(** [sei()]. *)
Definition sei (h : timer0) : timer0 :=
  irq_dispatch
    (mkTimer0 (TCCR0A h) (TCCR0B h) (TCNT0 h) (TOV0 h) (TOIE0 h) true (timer_ticks_hi h)).

(** [MCUCR |= PUD], the first statement of [main]; [PUD] is the bit number
    the device header gives. *)
Definition main_pull_up_disable (PUD mcucr : Z) : Z := uint8 (Z.lor mcucr PUD).

(** The [while (1) fsm_run(inst)] loop of [main], run for one pass per entry
    [(before, inside, pinb)] of the list: [before] counter periods go by
    ahead of the pass, [inside] schedules the counter against the register
    reads of [jiffies()], [pinb] gives the port value each channel reads. *)
Fixpoint main_loop (fuel : nat) (h : timer0) (t : Z)
    (env : list (N * list N * (nat -> Z))) (st : rpm_to_locked_rotor_app * Z)
  : option (rpm_to_locked_rotor_app * Z) :=
  match env with
  | [] => Some st
  | (before, inside, pinb) :: rest =>
      match fsm_run fuel (mkWorld (elapse before h) inside (t + Z.of_N before)) pinb st with
      | None => None
      | Some (w', st') => main_loop fuel (hw w') (elapsed w') rest st'
      end
  end.

(** [main] from the hardware state [h] and the data direction register
    [ddrb] found at start-up: [sei()], [jiffies_init()], then the loop. *)
Definition main (fuel : nat) (h : timer0) (ddrb : Z)
    (env : list (N * list N * (nat -> Z))) : option (rpm_to_locked_rotor_app * Z) :=
  main_loop fuel (jiffies_init (sei h)) 0 env (g_inst, ddrb).

(** Counter and accumulator agree with the ghost time [t], a pending
    overflow counting for 256. *)
Definition clock_consistent (h : timer0) (t : Z) : Prop :=
  timer_running h = true /\ TOIE0 h = true /\ 0 <= TCNT0 h < 256 /\
  jiffies_wrap (timer_ticks_hi h + (if TOV0 h then 256 else 0) + TCNT0 h) = jiffies_wrap t.

(** Invariant inside a critical section entered at ghost time [E0] with an
    overflow already pending, the counter at [c] and the accumulator at [H],
    when the counter does not wrap again during the section. *)
Definition pending_inv (H c E0 : Z) (w : world) : Prop :=
  SREG_I (hw w) = false /\ TOIE0 (hw w) = true /\ timer_running (hw w) = true /\
  TOV0 (hw w) = true /\ timer_ticks_hi (hw w) = H /\
  0 <= c /\ E0 <= elapsed w /\
  TCNT0 (hw w) = c + (elapsed w - E0) /\
  c + (elapsed w - E0) + schedule_ticks (pending w) < 256.

(** Invariant of the clock while the main program runs with interrupts
    enabled, at ghost time [t]: the counter runs, its overflow interrupt is
    enabled, no overflow is pending, and accumulator plus counter is [t] in
    [jiffies_t]. *)
Definition enabled_inv (h : timer0) (t : Z) : Prop :=
  SREG_I h = true /\ TOIE0 h = true /\ timer_running h = true /\ TOV0 h = false /\
  0 <= TCNT0 h < 256 /\
  jiffies_wrap (timer_ticks_hi h + TCNT0 h) = jiffies_wrap t.

(** Invariant inside the critical section of [jiffies()], entered at ghost
    time [E0] with accumulator [H] and counter [c0], when fewer than 256
    counter periods go by during the section. *)
Definition masked_inv (H c0 E0 : Z) (w : world) : Prop :=
  SREG_I (hw w) = false /\ TOIE0 (hw w) = true /\ timer_running (hw w) = true /\
  timer_ticks_hi (hw w) = H /\
  0 <= c0 < 256 /\ E0 <= elapsed w /\
  (elapsed w - E0) + schedule_ticks (pending w) < 256 /\
  TCNT0 (hw w) = (c0 + (elapsed w - E0)) mod 256 /\
  TOV0 (hw w) = (256 <=? c0 + (elapsed w - E0)).

(** ** Properties of the tick clock *)

Lemma jiffies_wrap_add_l (a b : Z) : jiffies_wrap (jiffies_wrap a + b) = jiffies_wrap (a + b).
Proof.
  unfold jiffies_wrap.
  destruct (Z.eq_dec (2 ^ jiffies_bits) 0) as [E | E].
  - rewrite E. now rewrite !Z.mod_0_r.
  - now rewrite Z.add_mod_idemp_l.
Qed.

Lemma jiffies_wrap_idem (a : Z) : jiffies_wrap (jiffies_wrap a) = jiffies_wrap a.
Proof.
  pose proof (jiffies_wrap_add_l a 0) as H. now rewrite !Z.add_0_r in H.
Qed.

Lemma jiffies_wrap_small (a : Z) : 0 <= a < 2 ^ jiffies_bits -> jiffies_wrap a = a.
Proof. intros H. unfold jiffies_wrap. now apply Z.mod_small. Qed.

Lemma elapse_succ (n : N) (h : timer0) : elapse (N.succ n) h = hw_tick (elapse n h).
Proof. unfold elapse. now rewrite N.iter_succ. Qed.

(** With interrupts masked the handler does not run: the accumulator and the
    mask stay as they are, and a pending overflow flag stays pending. *)
Lemma hw_tick_masked (h : timer0) :
  SREG_I h = false ->
  SREG_I (hw_tick h) = false /\
  timer_ticks_hi (hw_tick h) = timer_ticks_hi h /\
  (TOV0 h = true -> TOV0 (hw_tick h) = true).
Proof.
  intros HI. unfold hw_tick, irq_dispatch, timer_clock.
  destruct (timer_running h); [destruct (TCNT0 h =? 255) |]; simpl; rewrite ?HI; simpl;
    auto.
Qed.

Lemma elapse_masked (n : N) (h : timer0) :
  SREG_I h = false ->
  SREG_I (elapse n h) = false /\
  timer_ticks_hi (elapse n h) = timer_ticks_hi h /\
  (TOV0 h = true -> TOV0 (elapse n h) = true).
Proof.
  intros HI. induction n as [| n IH] using N.peano_ind.
  - simpl. auto.
  - rewrite elapse_succ. destruct IH as (I1 & I2 & I3).
    destruct (hw_tick_masked (elapse n h) I1) as (J1 & J2 & J3).
    repeat split; [assumption | congruence | auto].
Qed.

Lemma wait_masked (w : world) :
  SREG_I (hw w) = false ->
  SREG_I (hw (wait w)) = false /\
  timer_ticks_hi (hw (wait w)) = timer_ticks_hi (hw w) /\
  (TOV0 (hw w) = true -> TOV0 (hw (wait w)) = true).
Proof.
  intros HI. unfold wait. destruct (pending w) as [| d s]; simpl.
  - auto.
  - now apply elapse_masked.
Qed.

(** The retry loop ends within two rounds: a round is repeated only when the
    flag went from clear to set, and then the flag stays set. *)
Lemma jiffies_loop_total (fuel : nat) (w : world) :
  (2 <= fuel)%nat -> SREG_I (hw w) = false ->
  exists tifr_before tcnt w3,
    jiffies_loop fuel w = Some (tifr_before, tcnt, w3) /\
    jiffies_loop 2 w = Some (tifr_before, tcnt, w3) /\
    SREG_I (hw w3) = false /\
    timer_ticks_hi (hw w3) = timer_ticks_hi (hw w).
Proof.
  intros Hf HI.
  destruct fuel as [| [| fuel]]; try lia. clear Hf.
  cbn [jiffies_loop].
  destruct (wait_masked w HI) as (A1 & A2 & A3).
  destruct (wait_masked _ A1) as (B1 & B2 & B3).
  destruct (wait_masked _ B1) as (C1 & C2 & C3).
  destruct (Bool.eqb (TOV0 (hw (wait w))) (TOV0 (hw (wait (wait (wait w)))))) eqn:E1.
  - do 3 eexists. repeat split; try reflexivity; [assumption | congruence].
  - apply eqb_false_iff in E1.
    assert (F : TOV0 (hw (wait (wait (wait w)))) = true).
    { destruct (TOV0 (hw (wait w))) eqn:Eb;
        [| destruct (TOV0 (hw (wait (wait (wait w))))); congruence].
      exfalso. apply E1. symmetry. now apply C3, B3. }
    set (v := wait (wait (wait w))) in *.
    destruct (wait_masked v C1) as (D1 & D2 & D3).
    destruct (wait_masked _ D1) as (E1' & E2 & E3).
    destruct (wait_masked _ E1') as (F1 & F2 & F3).
    rewrite (D3 F), (F3 (E3 (D3 F))). simpl.
    do 3 eexists. repeat split; try reflexivity; [assumption | congruence].
Qed.

Lemma jiffies_total (fuel : nat) (w : world) :
  (2 <= fuel)%nat -> exists ret w', jiffies fuel w = Some (ret, w').
Proof.
  intros Hf. unfold jiffies. simpl.
  destruct (jiffies_loop_total fuel
              (mkWorld (snd (spin_lock_irqsave (hw w))) (pending w) (elapsed w)) Hf eq_refl)
    as (fb & tcnt & w3 & L & _).
  simpl in L. rewrite L. now do 2 eexists.
Qed.

(** The round of the retry loop that ends it: the first round when its two
    reads of the overflow flag agree, otherwise the second, whose reads
    always agree. The loop returns the first flag read and the counter read
    of that round; the flag had the same value when the counter was read. *)
Lemma jiffies_last_round (fuel : nat) (w0 : world) :
  (2 <= fuel)%nat -> SREG_I (hw w0) = false ->
  exists v : world,
    (v = w0 \/
     (v = wait (wait (wait w0)) /\
      TOV0 (hw (wait w0)) <> TOV0 (hw (wait (wait (wait w0)))))) /\
    TOV0 (hw (wait v)) = TOV0 (hw (wait (wait (wait v)))) /\
    TOV0 (hw (wait (wait v))) = TOV0 (hw (wait v)) /\
    timer_ticks_hi (hw (wait (wait (wait v)))) = timer_ticks_hi (hw w0) /\
    jiffies_loop fuel w0
    = Some (TOV0 (hw (wait v)), TCNT0 (hw (wait (wait v))), wait (wait (wait v))).
Proof.
  intros Hf I0.
  assert (R : forall x, SREG_I (hw x) = false ->
            SREG_I (hw (wait (wait (wait x)))) = false /\
            timer_ticks_hi (hw (wait (wait (wait x)))) = timer_ticks_hi (hw x) /\
            (TOV0 (hw (wait x)) = true -> TOV0 (hw (wait (wait x))) = true) /\
            (TOV0 (hw (wait (wait x))) = true -> TOV0 (hw (wait (wait (wait x)))) = true) /\
            (TOV0 (hw x) = true -> TOV0 (hw (wait x)) = true)).
  { intros x Ix.
    destruct (wait_masked x Ix) as (I1 & H1 & T1).
    destruct (wait_masked _ I1) as (I2 & H2 & T2).
    destruct (wait_masked _ I2) as (I3 & H3 & T3).
    repeat split; try assumption. congruence. }
  assert (Mid : forall x, SREG_I (hw x) = false ->
            TOV0 (hw (wait x)) = TOV0 (hw (wait (wait (wait x)))) ->
            TOV0 (hw (wait (wait x))) = TOV0 (hw (wait x))).
  { intros x Ix E. destruct (R x Ix) as (_ & _ & A & B & _).
    destruct (TOV0 (hw (wait x))) eqn:F1; [now apply A |].
    destruct (TOV0 (hw (wait (wait x)))) eqn:F2; [| reflexivity].
    rewrite (B eq_refl) in E. discriminate. }
  destruct (R w0 I0) as (I3 & H3 & A & B & _).
  destruct fuel as [| [| fuel]]; try lia. clear Hf.
  cbn [jiffies_loop].
  destruct (Bool.eqb (TOV0 (hw (wait w0))) (TOV0 (hw (wait (wait (wait w0)))))) eqn:E1.
  - apply eqb_prop in E1. exists w0.
    split; [now left |]. split; [exact E1 |]. split; [now apply Mid |].
    split; [exact H3 | reflexivity].
  - apply eqb_false_iff in E1.
    assert (F : TOV0 (hw (wait (wait (wait w0)))) = true).
    { destruct (TOV0 (hw (wait w0))) eqn:Eb;
        [| destruct (TOV0 (hw (wait (wait (wait w0))))); congruence].
      exfalso. apply E1. symmetry. now apply B, A. }
    set (v := wait (wait (wait w0))) in *.
    destruct (R v I3) as (_ & H6 & A' & B' & C').
    assert (F1 : TOV0 (hw (wait v)) = true) by now apply C'.
    assert (F3 : TOV0 (hw (wait (wait (wait v)))) = true) by now apply B', A'.
    rewrite F1, F3. cbn [Bool.eqb].
    exists v. split; [right; now split |]. rewrite F1, F3.
    split; [reflexivity |]. split; [now apply A' |].
    split; [congruence | reflexivity].
Qed.

(** C1. Every call of [jiffies()] returns (for any fuel of at least two
    rounds, the loop never needing more), in [jiffies_t]: the accumulator
    [timer_ticks_hi] as it stood at the call, plus the value [tcnt] read
    from [TCNT0] in the last round of the loop, plus 256 exactly when
    [tifr_before], read from the overflow flag ahead of the counter in that
    round, was set. The last round is the first one, made right after
    interrupts are masked, when its two flag reads agree, and otherwise the
    second; in it [tifr_before] equals [tifr_after], the flag had that value
    when the counter was read, and the accumulator is the one of the call:
    the three values are a consistent pair with its compensation. The call
    leaves the hardware as the last read left it, with the interrupt enable
    of the caller restored. *)
Theorem jiffies_compensated (fuel : nat) (w : world) :
  (2 <= fuel)%nat ->
  let w0 := mkWorld (snd (spin_lock_irqsave (hw w))) (pending w) (elapsed w) in
  exists v : world,
    (v = w0 \/
     (v = wait (wait (wait w0)) /\
      TOV0 (hw (wait w0)) <> TOV0 (hw (wait (wait (wait w0)))))) /\
    let tifr_before := TOV0 (hw (wait v)) in
    let tcnt := TCNT0 (hw (wait (wait v))) in
    let w3 := wait (wait (wait v)) in
    let tifr_after := TOV0 (hw w3) in
    tifr_before = tifr_after /\
    TOV0 (hw (wait (wait v))) = tifr_before /\
    timer_ticks_hi (hw w3) = timer_ticks_hi (hw w) /\
    jiffies_loop fuel w0 = Some (tifr_before, tcnt, w3) /\
    jiffies fuel w
    = Some (jiffies_wrap (timer_ticks_hi (hw w) + tcnt + (if tifr_before then 256 else 0)),
            mkWorld (spin_unlock_irqrestore (SREG_I (hw w)) (hw w3))
              (pending w3) (elapsed w3)).
Proof.
  intros Hf. cbv zeta. unfold jiffies, spin_lock_irqsave. cbn [fst snd].
  set (w0 := mkWorld _ (pending w) (elapsed w)).
  destruct (jiffies_last_round fuel w0 Hf eq_refl) as (v & Hv & E & Em & Hhi & L).
  exists v. split; [exact Hv |]. split; [exact E |]. split; [exact Em |].
  split; [exact Hhi |]. split; [exact L |].
  rewrite L, Hhi. cbn [hw w0 timer_ticks_hi].
  destruct (TOV0 (hw (wait v))).
  - now rewrite jiffies_wrap_add_l.
  - now rewrite Z.add_0_r.
Qed.

Lemma jiffies_wrap_congr (a b k : Z) :
  jiffies_wrap a = jiffies_wrap b -> jiffies_wrap (a + k) = jiffies_wrap (b + k).
Proof.
  intros E. rewrite <- (jiffies_wrap_add_l a k), <- (jiffies_wrap_add_l b k). now rewrite E.
Qed.

Lemma schedule_ticks_cons (d : N) (l : list N) :
  schedule_ticks (d :: l) = Z.of_N d + schedule_ticks l.
Proof. reflexivity. Qed.

Lemma schedule_ticks_nonneg (l : list N) : 0 <= schedule_ticks l.
Proof. induction l as [| d l IH]; [simpl | rewrite schedule_ticks_cons]; lia. Qed.

(** *** The clock while interrupts are enabled *)

Lemma hw_tick_enabled (h : timer0) (t : Z) :
  enabled_inv h t -> enabled_inv (hw_tick h) (t + 1).
Proof.
  unfold enabled_inv. intros (HI & HE & HR & HV & HC & HT).
  unfold hw_tick, timer_clock. rewrite HR.
  destruct (Z.eqb_spec (TCNT0 h) 255) as [E | E].
  - unfold irq_dispatch. simpl. rewrite HI, HE. simpl.
    repeat split; try assumption; try lia.
    rewrite Z.add_0_r, jiffies_wrap_idem.
    rewrite E in HT. apply (jiffies_wrap_congr _ _ 1) in HT.
    now replace (timer_ticks_hi h + 255 + 1) with (timer_ticks_hi h + 256) in HT by lia.
  - unfold irq_dispatch. simpl. rewrite HV, andb_false_r. simpl.
    repeat split; try assumption; try lia.
    rewrite Z.add_assoc. now apply jiffies_wrap_congr.
Qed.

Lemma elapse_enabled (n : N) (h : timer0) (t : Z) :
  enabled_inv h t -> enabled_inv (elapse n h) (t + Z.of_N n).
Proof.
  intros Hinv. induction n as [| n IH] using N.peano_ind.
  - simpl. now rewrite Z.add_0_r.
  - rewrite elapse_succ, N2Z.inj_succ.
    replace (t + Z.succ (Z.of_N n)) with (t + Z.of_N n + 1) by lia.
    now apply hw_tick_enabled.
Qed.

Lemma jiffies_init_enabled (h0 : timer0) :
  SREG_I h0 = true -> enabled_inv (jiffies_init h0) 0.
Proof.
  intros HI. unfold jiffies_init, spin_lock_irqsave, spin_unlock_irqrestore, irq_dispatch.
  simpl. rewrite HI. simpl. unfold enabled_inv, timer_running. simpl.
  repeat split; try reflexivity; lia.
Qed.

(** *** The clock inside the critical section *)

Lemma elapse_masked_counter (n : N) (h : timer0) :
  SREG_I h = false -> timer_running h = true -> 0 <= TCNT0 h < 256 ->
  elapse n h =
  mkTimer0 (TCCR0A h) (TCCR0B h) ((TCNT0 h + Z.of_N n) mod 256)
    (TOV0 h || (256 <=? TCNT0 h + Z.of_N n)) (TOIE0 h) false (timer_ticks_hi h).
Proof.
  intros HI HR HC. induction n as [| n IH] using N.peano_ind.
  - simpl. rewrite Z.add_0_r, Z.mod_small by lia.
    replace (256 <=? TCNT0 h) with false by (symmetry; apply Z.leb_gt; lia).
    rewrite orb_false_r. destruct h; simpl in *. now subst.
  - rewrite elapse_succ, IH, N2Z.inj_succ.
    unfold hw_tick, timer_clock, timer_running. simpl.
    unfold timer_running in HR. rewrite HR.
    set (x := TCNT0 h + Z.of_N n).
    assert (Hx : 0 <= x) by (unfold x; lia).
    replace (TCNT0 h + Z.succ (Z.of_N n)) with (x + 1) by (unfold x; lia).
    pose proof (Z.mod_pos_bound x 256 ltac:(lia)) as Hm.
    pose proof (Z.div_mod x 256 ltac:(lia)) as Hd.
    assert (Hq : 0 <= x / 256) by (apply Z.div_pos; lia).
    destruct (Z.eqb_spec (x mod 256) 255) as [E | E]; unfold irq_dispatch; simpl.
    + f_equal.
      * rewrite <- Z.add_mod_idemp_l, E by lia. reflexivity.
      * replace (256 <=? x + 1) with true by (symmetry; apply Z.leb_le; nia).
        now rewrite orb_true_r.
    + f_equal.
      * rewrite <- (Z.add_mod_idemp_l x 1) by lia.
        rewrite (Z.mod_small (x mod 256 + 1)) by lia. reflexivity.
      * f_equal. destruct (Z.leb_spec 256 x) as [L | L];
          destruct (Z.leb_spec 256 (x + 1)) as [L' | L']; try reflexivity; lia.
Qed.

Lemma wait_masked_inv (H c0 E0 : Z) (w : world) :
  masked_inv H c0 E0 w ->
  masked_inv H c0 E0 (wait w) /\ elapsed w <= elapsed (wait w).
Proof.
  intros Hinv. unfold wait. destruct (pending w) as [| d s] eqn:Ep.
  - split; [assumption | lia].
  - destruct Hinv as (HI & HE & HR & HH & Hc & Ht & Hs & HC & HV).
    rewrite Ep, schedule_ticks_cons in Hs. pose proof (schedule_ticks_nonneg s) as Hn.
    assert (Hr : 0 <= TCNT0 (hw w) < 256) by (rewrite HC; apply Z.mod_pos_bound; lia).
    rewrite (elapse_masked_counter d (hw w) HI HR Hr).
    unfold masked_inv, timer_running. simpl. unfold timer_running in HR.
    split; [| lia].
    repeat split; try assumption; try lia.
    + rewrite HC, Z.add_mod_idemp_l by lia. f_equal. lia.
    + rewrite HV, HC.
      replace (c0 + (elapsed w + Z.of_N d - E0)) with (c0 + (elapsed w - E0) + Z.of_N d)
        by lia.
      set (x := c0 + (elapsed w - E0)) in *.
      destruct (Z.leb_spec 256 x) as [L | L]; simpl.
      * symmetry. apply Z.leb_le. lia.
      * rewrite Z.mod_small by lia. reflexivity.
Qed.

Lemma wait_conserves (w : world) :
  elapsed (wait w) + schedule_ticks (pending (wait w))
  = elapsed w + schedule_ticks (pending w).
Proof.
  unfold wait. destruct (pending w) as [| d s] eqn:E; cbn [pending elapsed];
    rewrite ?E, ?schedule_ticks_cons; lia.
Qed.

Lemma jiffies_loop_conserves (fuel : nat) :
  forall w r, jiffies_loop fuel w = Some r ->
    elapsed (snd r) + schedule_ticks (pending (snd r))
    = elapsed w + schedule_ticks (pending w).
Proof.
  induction fuel as [| fuel IH]; intros w r; simpl; [discriminate |].
  destruct (Bool.eqb _ _).
  - intros [= <-]. simpl. now rewrite !wait_conserves.
  - intros L. rewrite (IH _ _ L). now rewrite !wait_conserves.
Qed.

(** One round of the loop whose two flag reads agree samples a consistent
    pair: counter plus compensation is the counter at entry plus the time
    gone by until the counter was read. *)
Lemma consistent_round (H c0 E0 : Z) (w : world) :
  masked_inv H c0 E0 w ->
  let w1 := wait w in
  let w2 := wait w1 in
  let w3 := wait w2 in
  masked_inv H c0 E0 w3 /\
  elapsed w <= elapsed w2 <= elapsed w3 /\
  (TOV0 (hw w1) = TOV0 (hw w3) ->
   TCNT0 (hw w2) + (if TOV0 (hw w1) then 256 else 0) = c0 + (elapsed w2 - E0)) /\
  (TOV0 (hw w1) <> TOV0 (hw w3) -> TOV0 (hw w3) = true).
Proof.
  intros I0 w1 w2 w3.
  destruct (wait_masked_inv _ _ _ _ I0) as (I1 & L1). fold w1 in I1, L1.
  destruct (wait_masked_inv _ _ _ _ I1) as (I2 & L2). fold w2 in I2, L2.
  destruct (wait_masked_inv _ _ _ _ I2) as (I3 & L3). fold w3 in I3, L3.
  split; [assumption |]. split; [lia |].
  destruct I1 as (_ & _ & _ & _ & Hc & Ht1 & Hs1 & _ & HV1).
  destruct I2 as (_ & _ & _ & _ & _ & Ht2 & Hs2 & HC2 & _).
  destruct I3 as (_ & _ & _ & _ & _ & Ht3 & Hs3 & _ & HV3).
  pose proof (schedule_ticks_nonneg (pending w2)).
  pose proof (schedule_ticks_nonneg (pending w3)).
  rewrite HV1, HV3, HC2.
  destruct (Z.leb_spec 256 (c0 + (elapsed w1 - E0)));
    destruct (Z.leb_spec 256 (c0 + (elapsed w3 - E0))); split; intros HH;
    try congruence; try lia.
  - replace (c0 + (elapsed w2 - E0)) with (c0 + (elapsed w2 - E0) - 256 + 1 * 256) by lia.
    rewrite Z.mod_add, Z.mod_small by lia. lia.
  - rewrite Z.mod_small by lia. lia.
Qed.

Lemma jiffies_loop_consistent (fuel : nat) (H c0 E0 : Z) (w : world) :
  (2 <= fuel)%nat -> masked_inv H c0 E0 w ->
  exists tifr_before tcnt w3,
    jiffies_loop fuel w = Some (tifr_before, tcnt, w3) /\
    masked_inv H c0 E0 w3 /\
    exists u, elapsed w <= u <= elapsed w3 /\
      tcnt + (if tifr_before then 256 else 0) = c0 + (u - E0).
Proof.
  intros Hf I0. destruct fuel as [| [| fuel]]; try lia. clear Hf.
  cbn [jiffies_loop].
  destruct (consistent_round _ _ _ _ I0) as (I3 & L & Heq & Hne).
  destruct (Bool.eqb _ _) eqn:E1.
  - apply eqb_prop in E1. do 3 eexists. split; [reflexivity |]. split; [assumption |].
    eexists. split; [| now apply Heq]. lia.
  - apply eqb_false_iff in E1. specialize (Hne E1).
    set (v := wait (wait (wait w))) in *.
    destruct (consistent_round _ _ _ _ I3) as (I6 & L' & Heq' & _).
    assert (F1 : TOV0 (hw (wait v)) = true).
    { destruct (wait_masked v) as (A1 & _ & A3); [apply I3 | auto]. }
    assert (F3 : TOV0 (hw (wait (wait (wait v)))) = true).
    { destruct (wait_masked v) as (A1 & _ & A3); [apply I3 |].
      destruct (wait_masked _ A1) as (B1 & _ & B3).
      destruct (wait_masked _ B1) as (_ & _ & C3). auto. }
    rewrite F1, F3 in *. simpl.
    do 3 eexists. split; [reflexivity |]. split; [assumption |].
    eexists. split; [| now apply Heq']. lia.
Qed.

(** A call made with interrupts enabled, during which fewer than 256 counter
    periods go by, returns the tick count of an instant of the call. *)
Lemma jiffies_linear (fuel : nat) (w : world) :
  (2 <= fuel)%nat ->
  enabled_inv (hw w) (elapsed w) ->
  schedule_ticks (pending w) < 256 ->
  exists ret w',
    jiffies fuel w = Some (ret, w') /\
    enabled_inv (hw w') (elapsed w') /\
    (exists u, elapsed w <= u <= elapsed w' /\ ret = jiffies_wrap u) /\
    elapsed w' <= elapsed w + schedule_ticks (pending w).
Proof.
  intros Hf (HI & HE & HR & HV & HC & HT) Hs.
  unfold jiffies, spin_lock_irqsave.
  set (w0 := mkWorld _ (pending w) (elapsed w)).
  assert (I0 : masked_inv (timer_ticks_hi (hw w)) (TCNT0 (hw w)) (elapsed w) w0).
  { unfold masked_inv, w0, timer_running. simpl. unfold timer_running in HR.
    rewrite Z.sub_diag, Z.add_0_r, Z.mod_small by lia.
    repeat split; try assumption; try lia.
    rewrite HV. symmetry. apply Z.leb_gt. lia. }
  destruct (jiffies_loop_consistent fuel _ _ _ _ Hf I0)
    as (fb & tcnt & w3 & L & I3 & u & Hu & Hsum).
  rewrite L. pose proof (jiffies_loop_conserves _ _ _ L) as Hcons. simpl in Hcons, Hu.
  pose proof (schedule_ticks_nonneg (pending w3)) as Hn.
  destruct I3 as (JI & JE & JR & JH & _ & Jt & Js & JC & JV).
  do 2 eexists. split; [reflexivity |]. simpl.
  assert (Hret : (if fb then jiffies_wrap (jiffies_wrap (timer_ticks_hi (hw w3) + tcnt) + 256)
                  else jiffies_wrap (timer_ticks_hi (hw w3) + tcnt)) = jiffies_wrap u).
  { rewrite JH.
    replace u with (elapsed w + (u - elapsed w)) by lia.
    rewrite <- (jiffies_wrap_congr _ _ (u - elapsed w) HT).
    destruct fb.
    - rewrite jiffies_wrap_add_l. f_equal. lia.
    - f_equal. lia. }
  split; [| split; [exists u; split; [lia | assumption] | lia]].
  unfold spin_unlock_irqrestore, irq_dispatch. simpl. rewrite HI, JE, JV. simpl.
  unfold timer_running in *.
  destruct (Z.leb_spec 256 (TCNT0 (hw w) + (elapsed w3 - elapsed w))) as [G | G];
    unfold enabled_inv, timer_running; simpl.
  - repeat split; try assumption; try (rewrite JC; apply Z.mod_pos_bound; lia).
    rewrite JC, JH, jiffies_wrap_add_l.
    replace (TCNT0 (hw w) + (elapsed w3 - elapsed w))
      with (TCNT0 (hw w) + (elapsed w3 - elapsed w) - 256 + 1 * 256) by lia.
    rewrite Z.mod_add, Z.mod_small by lia.
    replace (elapsed w3) with (elapsed w + (elapsed w3 - elapsed w)) at 2 by lia.
    rewrite <- (jiffies_wrap_congr _ _ (elapsed w3 - elapsed w) HT). f_equal. lia.
  - repeat split; try assumption; try (rewrite JC; apply Z.mod_pos_bound; lia).
    rewrite JC, JH, Z.mod_small by lia.
    replace (elapsed w3) with (elapsed w + (elapsed w3 - elapsed w)) at 2 by lia.
    rewrite <- (jiffies_wrap_congr _ _ (elapsed w3 - elapsed w) HT). f_equal. lia.
Qed.

Lemma jiffies_calls_linear (fuel : nat) (calls : list (N * list N)) :
  (2 <= fuel)%nat ->
  Forall (fun c => schedule_ticks (snd c) < 256) calls ->
  forall h t, enabled_inv h t ->
  exists res,
    jiffies_calls fuel h t calls = Some res /\
    length res = length calls /\
    linearized t res /\
    Forall (fun r => snd r <= t + session_ticks calls) res.
Proof.
  intros Hf Hall. induction Hall as [| [before inside] rest Hc Hrest IH]; intros h t Hinv.
  - exists []. simpl. auto.
  - cbn [jiffies_calls]. simpl in Hc.
    pose proof (elapse_enabled before h t Hinv) as Hinv1.
    destruct (jiffies_linear fuel (mkWorld (elapse before h) inside (t + Z.of_N before)) Hf
                Hinv1 Hc) as (ret & w' & J & Hinv' & Hu & Hend).
    rewrite J. cbn [elapsed pending] in Hu, Hend.
    destruct (IH _ _ Hinv') as (res & R & Hlen & Hlin & Hb). rewrite R.
    eexists. split; [reflexivity |]. cbn [length linearized session_ticks].
    pose proof (schedule_ticks_nonneg inside). pose proof (N2Z.is_nonneg before).
    repeat split; [congruence | lia | assumption | assumption |].
    constructor; [simpl; destruct Hu as (u & Hu & _) | ].
    + assert (0 <= session_ticks rest).
      { clear. induction rest as [| [b i] r IHr]; simpl; [lia |].
        pose proof (schedule_ticks_nonneg i). lia. }
      lia.
    + eapply Forall_impl; [| exact Hb]. intros r Hr. simpl in Hr |- *. lia.
Qed.

Lemma linearized_sorted (B : Z) (res : list (Z * Z * Z)) :
  B < 2 ^ jiffies_bits ->
  Forall (fun r => snd r <= B) res ->
  forall t, 0 <= t -> linearized t res ->
  Forall (fun v => t <= v) (returned res) /\ StronglySorted Z.le (returned res).
Proof.
  intros HB Hall. induction Hall as [| [[t1 ret] t2] rest Hr Hrest IH]; intros t Ht Hlin.
  - simpl. split; constructor.
  - destruct Hlin as (H1 & (u & Hu & Hret) & Hlin). simpl in Hr.
    rewrite jiffies_wrap_small in Hret by lia. subst ret.
    destruct (IH t2 ltac:(lia) Hlin) as (F & S).
    cbn [returned map fst snd]. fold (returned rest). split.
    + constructor; [lia |]. eapply Forall_impl; [| exact F]. simpl. intros; lia.
    + constructor; [assumption |]. eapply Forall_impl; [| exact F]. simpl. intros; lia.
Qed.

(** C2 (as amended). After [jiffies_init], for every sequence of [jiffies()]
    calls with any number of counter periods, and so of overflows, between
    the calls, and fewer than 256 counter periods inside each call (so that at
    most one overflow falls into a critical section, wherever it falls
    between the register reads): every call returns, in [jiffies_t], the
    number of counter periods gone by at an instant of the call; and as long
    as the session is shorter than the range of [jiffies_t] the returned
    values are non-decreasing. *)
Theorem jiffies_monotonic_until_wrap (fuel : nat) (h0 : timer0) (calls : list (N * list N)) :
  (2 <= fuel)%nat ->
  SREG_I h0 = true ->
  Forall (fun c => schedule_ticks (snd c) < 256) calls ->
  exists res,
    jiffies_session fuel h0 calls = Some res /\
    length res = length calls /\
    linearized 0 res /\
    (session_ticks calls < 2 ^ jiffies_bits -> StronglySorted Z.le (returned res)).
Proof.
  intros Hf HI Hall. unfold jiffies_session.
  destruct (jiffies_calls_linear fuel calls Hf Hall _ _ (jiffies_init_enabled h0 HI))
    as (res & R & Hlen & Hlin & Hb).
  exists res. repeat split; try assumption.
  intros HB. now apply (linearized_sorted (session_ticks calls) res HB Hb 0 ltac:(lia)).
Qed.

(** When the tick count passes the range of [jiffies_t] the returned value
    starts again from zero. *)
Lemma jiffies_wraps_around (fuel : nat) (h0 : timer0) :
  (2 <= fuel)%nat -> SREG_I h0 = true -> 0 <= jiffies_bits ->
  exists res,
    jiffies_session fuel h0 [(Z.to_N (2 ^ jiffies_bits - 1), []); (1%N, [])] = Some res /\
    returned res = [2 ^ jiffies_bits - 1; 0].
Proof.
  intros Hf HI Hb.
  assert (Hp : 0 < 2 ^ jiffies_bits) by (apply Z.pow_pos_nonneg; lia).
  unfold jiffies_session. cbn [jiffies_calls].
  pose proof (elapse_enabled (Z.to_N (2 ^ jiffies_bits - 1)) _ _ (jiffies_init_enabled h0 HI))
    as Hinv1.
  destruct (jiffies_linear fuel (mkWorld _ [] _) Hf Hinv1 ltac:(simpl; lia))
    as (r1 & w1 & J1 & Hinv1' & (u1 & Hu1 & E1) & Hend1).
  rewrite J1. cbn [elapsed pending schedule_ticks fold_right] in Hu1, Hend1.
  pose proof (elapse_enabled 1 _ _ Hinv1') as Hinv2.
  destruct (jiffies_linear fuel (mkWorld _ [] _) Hf Hinv2 ltac:(simpl; lia))
    as (r2 & w2 & J2 & _ & (u2 & Hu2 & E2) & Hend2).
  rewrite J2. cbn [elapsed pending schedule_ticks fold_right] in Hu2, Hend2.
  eexists. split; [reflexivity |].
  rewrite Z2N.id in * by lia.
  assert (u1 = 2 ^ jiffies_bits - 1) by lia.
  assert (u2 = 2 ^ jiffies_bits) by lia. subst u1 u2.
  cbn [returned map fst snd]. rewrite E1, E2. f_equal; [| f_equal].
  - apply jiffies_wrap_small. lia.
  - unfold jiffies_wrap. apply Z.mod_same. lia.
Qed.

(** ** Properties of the channel detector *)

(** *** The cases of the [switch] *)

Lemma fsm_channel_init (i : nat) (curr_time pinb : Z) c ddrb :
  state c = FSM_STATE_INIT ->
  fsm_channel i curr_time pinb c ddrb
  = (set_state FSM_STATE_POWER_ON (set_time curr_time c), ddrb).
Proof. intros E. unfold fsm_channel. now rewrite E. Qed.

Lemma fsm_channel_power_on (i : nat) (curr_time pinb : Z) c ddrb :
  state c = FSM_STATE_POWER_ON ->
  fsm_channel i curr_time pinb c ddrb
  = if jiffies_sub curr_time (time c) >? POWER_ON_JIFFIES
    then (set_prev_sample_time curr_time
            (set_time curr_time (set_state FSM_STATE_SPIN_UP c)), drive_low i ddrb)
    else (c, ddrb).
Proof. intros E. unfold fsm_channel. now rewrite E. Qed.

Lemma spec_sampling_step_code (curr_time : Z) (curr_input : bool) c :
  (let channel :=
     if negb (Bool.eqb curr_input (prev_input_state c)) then
       let channel := set_toggles (uint32 (toggles c + 1)) c in
       set_prev_input_state curr_input channel
     else c in
   if jiffies_sub curr_time (prev_sample_time channel) >? SAMPLE_JIFFIES then
     let channel :=
       if toggles channel >=? TOGGLE_COUNT_THRESHOLD
       then set_under_threshold false channel
       else set_under_threshold true channel in
     let channel := set_toggles 0 channel in
     set_prev_sample_time curr_time channel
   else channel)
  = spec_sampling_step curr_time curr_input c.
Proof.
  unfold spec_sampling_step, spec_count_toggle, window_boundary.
  unfold set_prev_sample_time, set_toggles, set_under_threshold, set_prev_input_state.
  destruct (Bool.eqb curr_input (prev_input_state c));
    cbn [negb state time prev_sample_time under_threshold prev_input_state toggles];
    match goal with |- context [?a >? ?b] => destruct (a >? b) end; try reflexivity;
    match goal with |- context [?a >=? ?b] =>
      rewrite (Z.geb_leb a b), (Z.ltb_antisym b a); destruct (b <=? a) end;
    reflexivity.
Qed.

Lemma fsm_channel_spin_up (i : nat) (curr_time pinb : Z) c ddrb :
  state c = FSM_STATE_SPIN_UP ->
  fsm_channel i curr_time pinb c ddrb
  = (let c' := spec_sampling_step curr_time (read_input i pinb) c in
     if jiffies_sub curr_time (time c) >? SPIN_UP_JIFFIES
     then set_state FSM_STATE_RUNNING c' else c',
     ddrb).
Proof.
  intros E. unfold fsm_channel. rewrite E. cbv zeta.
  pose proof (spec_sampling_step_code curr_time (read_input i pinb) c) as S.
  cbv zeta in S. rewrite S.
  replace (time (spec_sampling_step curr_time (read_input i pinb) c)) with (time c);
    [reflexivity |].
  unfold spec_sampling_step, spec_count_toggle.
  destruct (Bool.eqb _ _); destruct (window_boundary _ _); reflexivity.
Qed.

Lemma fsm_channel_running (i : nat) (curr_time pinb : Z) c ddrb :
  state c = FSM_STATE_RUNNING ->
  fsm_channel i curr_time pinb c ddrb
  = (let c' := spec_sampling_step curr_time (read_input i pinb) c in
     (c', if under_threshold c' then float_high i ddrb else drive_low i ddrb)).
Proof.
  intros E. unfold fsm_channel. rewrite E. cbv zeta.
  pose proof (spec_sampling_step_code curr_time (read_input i pinb) c) as S.
  cbv zeta in S. now rewrite S.
Qed.

Lemma fsm_channel_default (i : nat) (curr_time pinb : Z) c ddrb :
  ~ valid_state (state c) ->
  fsm_channel i curr_time pinb c ddrb = (c, float_high i ddrb).
Proof.
  unfold valid_state, fsm_channel. intros Hn.
  destruct (state c) as [| [[p | p |] | [p | p |] |] | p]; try reflexivity;
    exfalso; apply Hn; auto.
Qed.

Lemma valid_state_cases (s : Z) :
  valid_state s \/ ~ valid_state s.
Proof.
  unfold valid_state.
  destruct (Z.eq_dec s 0); [auto |]. destruct (Z.eq_dec s 1); [auto |].
  destruct (Z.eq_dec s 2); [auto |]. destruct (Z.eq_dec s 3); [auto |].
  right. intros [? | [? | [? | ?]]]; contradiction.
Qed.

Lemma spec_sampling_step_frame (curr_time : Z) (curr_input : bool) c :
  state (spec_sampling_step curr_time curr_input c) = state c /\
  time (spec_sampling_step curr_time curr_input c) = time c.
Proof.
  unfold spec_sampling_step, spec_count_toggle.
  destruct (Bool.eqb _ _); destruct (window_boundary _ _); split; reflexivity.
Qed.

Lemma channel_steps_app (i : nat) (l1 l2 : list (Z * Z)) c ddrb :
  channel_steps i (l1 ++ l2) c ddrb
  = channel_steps i l2 (fst (channel_steps i l1 c ddrb)) (snd (channel_steps i l1 c ddrb)).
Proof.
  revert c ddrb. induction l1 as [| [t p] l1 IH]; intros c ddrb; simpl.
  - reflexivity.
  - destruct (fsm_channel i t p c ddrb) as [c' d']. apply IH.
Qed.

Lemma channel_steps_cons (i : nat) (t p : Z) (l : list (Z * Z)) c ddrb :
  channel_steps i ((t, p) :: l) c ddrb
  = channel_steps i l (fst (fsm_channel i t p c ddrb)) (snd (fsm_channel i t p c ddrb)).
Proof. simpl. now destruct (fsm_channel i t p c ddrb). Qed.

(** *** Elapsed time in wrap-around arithmetic *)

Lemma jiffies_sub_wrap (a b : Z) :
  jiffies_sub (jiffies_wrap a) (jiffies_wrap b) = jiffies_wrap (a - b).
Proof.
  unfold jiffies_sub, jiffies_wrap.
  destruct (Z.eq_dec (2 ^ jiffies_bits) 0) as [E | E].
  - rewrite E. now rewrite !Z.mod_0_r.
  - now rewrite <- Zminus_mod.
Qed.

Lemma jiffies_sub_elapsed (T d : Z) :
  0 <= d < 2 ^ jiffies_bits ->
  jiffies_sub (jiffies_wrap (T + d)) (jiffies_wrap T) = d.
Proof.
  intros Hd. rewrite jiffies_sub_wrap. replace (T + d - T) with d by lia.
  now apply jiffies_wrap_small.
Qed.

Lemma window_boundary_count_toggle (t : Z) (x : bool) c :
  window_boundary t (spec_count_toggle x c) = window_boundary t c.
Proof.
  unfold window_boundary, spec_count_toggle. now destruct (Bool.eqb _ _).
Qed.

Lemma spec_sampling_step_window (t : Z) (x : bool) c :
  prev_sample_time (spec_sampling_step t x c)
  = if window_boundary t c then t else prev_sample_time c.
Proof.
  unfold spec_sampling_step. rewrite window_boundary_count_toggle.
  destruct (window_boundary t c); [reflexivity |].
  unfold spec_count_toggle. now destruct (Bool.eqb _ _).
Qed.

Lemma sampling_fields_step (i : nat) (t p : Z) c ddrb :
  sampling_state (state c) ->
  sampling_fields (fst (fsm_channel i t p c ddrb))
  = sampling_fields (spec_sampling_step t (read_input i p) c).
Proof.
  intros [E | E].
  - rewrite fsm_channel_spin_up by assumption. cbv zeta. cbn [fst].
    now destruct (_ >? _).
  - now rewrite fsm_channel_running by assumption.
Qed.

(** C3. With [earlier] and [later] the values in [jiffies_t] of the tick
    counts [T] and [T + d], the subtraction [later - earlier] in [jiffies_t]
    is [d] whenever [d] is below half the range of the type, also when the
    two values straddle the maximum of the type. Every elapsed-time test of
    [fsm_run] is made on such a difference: leaving PowerOn, leaving SpinUp
    and closing a sample window (in SpinUp and in Running) happen exactly
    when [d] exceeds the respective duration. *)
Theorem wraparound_elapsed (T d : Z) :
  0 < jiffies_bits ->
  0 <= d < 2 ^ (jiffies_bits - 1) ->
  jiffies_sub (jiffies_wrap (T + d)) (jiffies_wrap T) = d /\
  (forall i pinb c ddrb,
     state c = FSM_STATE_POWER_ON -> time c = jiffies_wrap T ->
     state (fst (fsm_channel i (jiffies_wrap (T + d)) pinb c ddrb))
     = if d >? POWER_ON_JIFFIES then FSM_STATE_SPIN_UP else FSM_STATE_POWER_ON) /\
  (forall i pinb c ddrb,
     state c = FSM_STATE_SPIN_UP -> time c = jiffies_wrap T ->
     state (fst (fsm_channel i (jiffies_wrap (T + d)) pinb c ddrb))
     = if d >? SPIN_UP_JIFFIES then FSM_STATE_RUNNING else FSM_STATE_SPIN_UP) /\
  (forall i pinb c ddrb,
     sampling_state (state c) -> prev_sample_time c = jiffies_wrap T ->
     prev_sample_time (fst (fsm_channel i (jiffies_wrap (T + d)) pinb c ddrb))
     = if d >? SAMPLE_JIFFIES then jiffies_wrap (T + d) else jiffies_wrap T).
Proof.
  intros Hb Hd.
  assert (Hlt : 2 ^ (jiffies_bits - 1) <= 2 ^ jiffies_bits)
    by (apply Z.pow_le_mono_r; lia).
  assert (E : jiffies_sub (jiffies_wrap (T + d)) (jiffies_wrap T) = d)
    by (apply jiffies_sub_elapsed; lia).
  split; [exact E |]. repeat split.
  - intros i pinb c ddrb Hs Ht.
    rewrite fsm_channel_power_on, Ht, E by assumption.
    now destruct (d >? POWER_ON_JIFFIES).
  - intros i pinb c ddrb Hs Ht.
    rewrite fsm_channel_spin_up, Ht, E by assumption. cbv zeta. cbn [fst].
    destruct (d >? SPIN_UP_JIFFIES); [reflexivity |].
    now rewrite (proj1 (spec_sampling_step_frame _ _ c)).
  - intros i pinb c ddrb Hs Ht.
    pose proof (sampling_fields_step i (jiffies_wrap (T + d)) pinb c ddrb Hs) as F.
    unfold sampling_fields in F. injection F as -> _ _ _.
    rewrite spec_sampling_step_window. unfold window_boundary. now rewrite Ht, E.
Qed.

(** *** Sample windows *)

Lemma level_changes_nonneg (prev : bool) (levels : list bool) :
  0 <= level_changes prev levels.
Proof.
  revert prev. induction levels as [| x rest IH]; intros prev; simpl; [lia |].
  specialize (IH x). destruct (Bool.eqb x prev); lia.
Qed.

Lemma last_cons_default {A : Type} (r : list A) :
  forall x d, last (x :: r) d = last r x.
Proof.
  induction r as [| y r IH]; intros x d; [reflexivity |].
  change (last (x :: y :: r) d) with (last (y :: r) d). now rewrite !IH.
Qed.

Lemma level_changes_app (prev : bool) (l1 l2 : list bool) :
  level_changes prev (l1 ++ l2) = level_changes prev l1 + level_changes (last l1 prev) l2.
Proof.
  revert prev. induction l1 as [| x rest IH]; intros prev.
  - simpl. lia.
  - change ((x :: rest) ++ l2) with (x :: (rest ++ l2)). cbn [level_changes].
    rewrite IH, last_cons_default. lia.
Qed.

(** Inside a window the toggle count is the count at the start of the
    window plus the number of level changes read since. *)
Lemma window_accumulates (i : nat) (l : list (Z * Z)) :
  forall c ddrb,
    sampling_state (state c) ->
    Forall (fun s => window_boundary (fst s) c = false) l ->
    0 <= toggles c ->
    toggles c + level_changes (prev_input_state c) (map (fun s => read_input i (snd s)) l)
      < 2 ^ 32 ->
    let c' := fst (channel_steps i l c ddrb) in
    sampling_state (state c') /\
    prev_sample_time c' = prev_sample_time c /\
    under_threshold c' = under_threshold c /\
    prev_input_state c' = last (map (fun s => read_input i (snd s)) l) (prev_input_state c) /\
    toggles c'
    = toggles c + level_changes (prev_input_state c) (map (fun s => read_input i (snd s)) l).
Proof.
  induction l as [| [t p] l IH]; intros c ddrb Hs Hall Ht Hlt.
  - simpl. repeat split; try assumption; try reflexivity; lia.
  - apply Forall_cons_iff in Hall. destruct Hall as (Hb & Hall). cbn [fst] in Hb.
    cbv zeta. rewrite channel_steps_cons.
    set (c1 := fst (fsm_channel i t p c ddrb)).
    set (d1 := snd (fsm_channel i t p c ddrb)).
    pose proof (sampling_fields_step i t p c ddrb Hs) as F. fold c1 in F.
    unfold sampling_fields, spec_sampling_step in F.
    rewrite window_boundary_count_toggle, Hb in F.
    injection F as F1 F2 F3 F4.
    assert (Hs1 : sampling_state (state c1)).
    { unfold c1. destruct Hs as [E | E].
      - rewrite fsm_channel_spin_up by assumption. cbv zeta. cbn [fst].
        destruct (_ >? _); [now right |].
        rewrite (proj1 (spec_sampling_step_frame _ _ c)). now left.
      - rewrite fsm_channel_running by assumption. cbv zeta. cbn [fst].
        rewrite (proj1 (spec_sampling_step_frame _ _ c)). now right. }
    cbn [map snd level_changes] in Hlt |- *.
    pose proof (level_changes_nonneg (read_input i p)
                  (map (fun s => read_input i (snd s)) l)) as Hn.
    assert (G : prev_input_state c1 = read_input i p /\
                toggles c1 = toggles c + (if Bool.eqb (read_input i p) (prev_input_state c)
                                          then 0 else 1)).
    { rewrite F3, F4. unfold spec_count_toggle.
      destruct (Bool.eqb (read_input i p) (prev_input_state c)) eqn:Eb; cbn.
      - apply eqb_prop in Eb. split; [congruence | lia].
      - split; [reflexivity |]. unfold uint32. apply Z.mod_small. lia. }
    destruct G as (G1 & G2).
    destruct (IH c1 d1 Hs1) as (K1 & K2 & K3 & K4 & K5).
    + eapply Forall_impl; [| exact Hall]. intros s. unfold window_boundary.
      rewrite F1. unfold spec_count_toggle. now destruct (Bool.eqb _ _).
    + destruct (Bool.eqb _ _) in G2; lia.
    + rewrite G1, G2. destruct (Bool.eqb _ _); lia.
    + repeat split; try assumption.
      * rewrite K2, F1. unfold spec_count_toggle. now destruct (Bool.eqb _ _).
      * rewrite K3, F2. unfold spec_count_toggle. now destruct (Bool.eqb _ _).
      * rewrite K4, G1. now rewrite last_cons_default.
      * rewrite K5, G1, G2. lia.
Qed.

Lemma window_boundary_same_window (t : Z) c c' :
  prev_sample_time c' = prev_sample_time c -> window_boundary t c' = window_boundary t c.
Proof. unfold window_boundary. now intros ->. Qed.

(** A whole window: steps inside the window, then the step that closes it.
    The verdict latched is the comparison of the number of level changes
    read during the window with the threshold. *)
Lemma window_verdict (i : nat) (l : list (Z * Z)) (tb pb : Z) c ddrb :
  sampling_state (state c) ->
  toggles c = 0 ->
  Forall (fun s => window_boundary (fst s) c = false) l ->
  window_boundary tb c = true ->
  level_changes (prev_input_state c)
    (map (fun s => read_input i (snd s)) (l ++ [(tb, pb)])) < 2 ^ 32 ->
  let c' := fst (channel_steps i (l ++ [(tb, pb)]) c ddrb) in
  under_threshold c'
  = (level_changes (prev_input_state c)
       (map (fun s => read_input i (snd s)) (l ++ [(tb, pb)])) <? TOGGLE_COUNT_THRESHOLD) /\
  toggles c' = 0 /\ prev_sample_time c' = tb.
Proof.
  intros Hs Ht Hall Hb Hlt. cbv zeta.
  rewrite map_app, level_changes_app in *. cbn [map snd level_changes] in *.
  set (levels := map (fun s => read_input i (snd s)) l) in *.
  pose proof (level_changes_nonneg (prev_input_state c) levels) as Hn.
  assert (Hlt1 : toggles c + level_changes (prev_input_state c) levels < 2 ^ 32)
    by (destruct (Bool.eqb _ _) in Hlt; lia).
  destruct (window_accumulates i l c ddrb Hs Hall ltac:(lia) Hlt1)
    as (K1 & K2 & K3 & K4 & K5).
  fold levels in K4, K5.
  rewrite channel_steps_app, channel_steps_cons. cbn [channel_steps fst].
  set (c1 := fst (channel_steps i l c ddrb)) in *.
  pose proof (sampling_fields_step i tb pb c1 (snd (channel_steps i l c ddrb)) K1) as F.
  unfold sampling_fields, spec_sampling_step in F.
  rewrite window_boundary_count_toggle, (window_boundary_same_window tb c c1 K2), Hb in F.
  cbn [prev_sample_time under_threshold prev_input_state toggles] in F.
  injection F as F1 F2 F3 F4.
  repeat split; try assumption.
  rewrite F2. f_equal. unfold spec_count_toggle. rewrite K4.
  destruct (Bool.eqb (read_input i pb) (last levels (prev_input_state c))); cbn [toggles].
  - lia.
  - unfold uint32. rewrite Z.mod_small; lia.
Qed.

(** C5. A step made in SpinUp or in Running is a window boundary when
    [now - sample_window_start_time > SAMPLE_JIFFIES]. At a boundary the step
    sets [under_threshold] to [toggle_count < TOGGLE_COUNT_THRESHOLD] (the
    count including the toggle of this step, if any), clears the count and
    restarts the window at [now]; with the threshold of 40 a window of 52
    toggles latches [false] and one of 10 toggles latches [true]. A step that
    is not a boundary, and a step in any other state, leaves
    [under_threshold] as it is. *)
Theorem window_boundary_latch (i : nat) c (ddrb : Z) :
  (forall t p,
     let c' := fst (fsm_channel i t p c ddrb) in
     let n := if Bool.eqb (read_input i p) (prev_input_state c)
              then toggles c else uint32 (toggles c + 1) in
     (sampling_state (state c) -> window_boundary t c = true ->
      under_threshold c' = (n <? TOGGLE_COUNT_THRESHOLD) /\
      toggles c' = 0 /\ prev_sample_time c' = t) /\
     (sampling_state (state c) -> window_boundary t c = false ->
      under_threshold c' = under_threshold c /\ toggles c' = n /\
      prev_sample_time c' = prev_sample_time c) /\
     (~ sampling_state (state c) ->
      under_threshold c' = under_threshold c /\ toggles c' = toggles c)) /\
  TOGGLE_COUNT_THRESHOLD = 40 /\
  (forall l tb pb,
     sampling_state (state c) -> toggles c = 0 ->
     Forall (fun s => window_boundary (fst s) c = false) l ->
     window_boundary tb c = true ->
     let changes :=
       level_changes (prev_input_state c)
         (map (fun s => read_input i (snd s)) (l ++ [(tb, pb)])) in
     let c' := fst (channel_steps i (l ++ [(tb, pb)]) c ddrb) in
     (changes = 52 -> under_threshold c' = false) /\
     (changes = 10 -> under_threshold c' = true)).
Proof.
  split; [| split; [reflexivity |]].
  - intros t p. cbv zeta. split; [| split].
    + intros Hs Hb.
      pose proof (sampling_fields_step i t p c ddrb Hs) as F.
      unfold sampling_fields, spec_sampling_step in F.
      rewrite window_boundary_count_toggle, Hb in F.
      cbn [prev_sample_time under_threshold prev_input_state toggles] in F.
      injection F as F1 F2 F3 F4. repeat split; try assumption.
      rewrite F2. unfold spec_count_toggle. now destruct (Bool.eqb _ _).
    + intros Hs Hb.
      pose proof (sampling_fields_step i t p c ddrb Hs) as F.
      unfold sampling_fields, spec_sampling_step in F.
      rewrite window_boundary_count_toggle, Hb in F.
      injection F as F1 F2 F3 F4. rewrite F1, F2, F4.
      unfold spec_count_toggle. now destruct (Bool.eqb _ _).
    + intros Hn. destruct (valid_state_cases (state c)) as [[E | [E | [E | E]]] | E].
      * now rewrite fsm_channel_init.
      * rewrite fsm_channel_power_on by assumption. now destruct (_ >? _).
      * exfalso. apply Hn. now left.
      * exfalso. apply Hn. now right.
      * now rewrite fsm_channel_default.
  - intros l tb pb Hs Ht Hall Hb. cbv zeta.
    split; intros Hc;
      (destruct (window_verdict i l tb pb c ddrb Hs Ht Hall Hb) as (V & _);
       [rewrite Hc; reflexivity | rewrite V, Hc; reflexivity]).
Qed.

(** *** State sequencing *)

Lemma gtb_false (a b : Z) : a <= b -> (a >? b) = false.
Proof. intros H. rewrite Z.gtb_ltb. now apply Z.ltb_ge. Qed.

Lemma gtb_true (a b : Z) : b < a -> (a >? b) = true.
Proof. intros H. rewrite Z.gtb_ltb. now apply Z.ltb_lt. Qed.

Lemma power_on_waits (i : nat) (idle : list (Z * Z)) c ddrb :
  state c = FSM_STATE_POWER_ON -> time c = 0 ->
  Forall (fun s => fst s = 0) idle ->
  channel_steps i idle c ddrb = (c, ddrb).
Proof.
  intros Hs Ht Hall. induction Hall as [| [t p] idle Hz Hall IH]; [reflexivity |].
  simpl in Hz. subst t. rewrite channel_steps_cons, fsm_channel_power_on by assumption.
  rewrite Ht. unfold jiffies_sub, jiffies_wrap, POWER_ON_JIFFIES.
  rewrite Z.sub_diag. change (0 mod 2 ^ jiffies_bits) with 0. exact IH.
Qed.

Lemma spin_up_waits (i : nat) (spin : list (Z * Z)) (t1 : Z) :
  forall c ddrb,
    state c = FSM_STATE_SPIN_UP -> time c = t1 ->
    Forall (fun s => jiffies_sub (fst s) t1 <= SPIN_UP_JIFFIES) spin ->
    state (fst (channel_steps i spin c ddrb)) = FSM_STATE_SPIN_UP /\
    time (fst (channel_steps i spin c ddrb)) = t1.
Proof.
  induction spin as [| [t p] spin IH]; intros c ddrb Hs Ht Hall; [now split |].
  apply Forall_cons_iff in Hall. destruct Hall as (Hle & Hall). cbn [fst] in Hle.
  rewrite channel_steps_cons. apply IH; try assumption;
    rewrite fsm_channel_spin_up by assumption; cbv zeta; cbn [fst]; rewrite Ht;
    rewrite (gtb_false _ _ Hle);
    [rewrite (proj1 (spec_sampling_step_frame _ _ c)) |
     rewrite (proj2 (spec_sampling_step_frame _ _ c))]; assumption.
Qed.

(** C4. With [POWER_ON_JIFFIES = 0] and [SPIN_UP_JIFFIES] of five sample
    units, a channel starting from its zeroed record: goes from Init to
    PowerOn at the first step, at tick 0; stays in PowerOn while the tick is
    still 0 and goes to SpinUp at the next step made at a tick after 0; stays
    in SpinUp while the time since it entered SpinUp does not exceed five
    sample units and goes to Running at the first step where it does,
    whatever the inputs read, and so whatever the verdict, up to then. *)
Theorem state_sequencing (i : nat) (ddrb p0 : Z) (idle : list (Z * Z)) (t1 p1 : Z)
    (spin : list (Z * Z)) (t2 p2 : Z) :
  Forall (fun s => fst s = 0) idle ->
  0 < t1 < 2 ^ jiffies_bits ->
  Forall (fun s => jiffies_sub (fst s) t1 <= 5 * SAMPLE_JIFFIES) spin ->
  5 * SAMPLE_JIFFIES < jiffies_sub t2 t1 ->
  POWER_ON_JIFFIES = 0 /\ SPIN_UP_JIFFIES = 5 * SAMPLE_JIFFIES /\
  let run := fun l => fst (channel_steps i l channel_zero ddrb) in
  state (run [(0, p0)]) = FSM_STATE_POWER_ON /\
  state (run ((0, p0) :: idle)) = FSM_STATE_POWER_ON /\
  state (run ((0, p0) :: idle ++ [(t1, p1)])) = FSM_STATE_SPIN_UP /\
  state (run ((0, p0) :: idle ++ (t1, p1) :: spin)) = FSM_STATE_SPIN_UP /\
  state (run ((0, p0) :: idle ++ (t1, p1) :: spin ++ [(t2, p2)])) = FSM_STATE_RUNNING.
Proof.
  intros Hidle Ht1 Hspin Ht2.
  assert (H5 : SPIN_UP_JIFFIES = 5 * SAMPLE_JIFFIES) by (unfold SPIN_UP_JIFFIES; lia).
  split; [reflexivity |]. split; [exact H5 |]. cbv zeta.
  set (c1 := set_state FSM_STATE_POWER_ON (set_time 0 channel_zero)).
  assert (S0 : forall l, channel_steps i ((0, p0) :: l) channel_zero ddrb
                         = channel_steps i l c1 ddrb).
  { intros l. rewrite channel_steps_cons, fsm_channel_init by reflexivity. reflexivity. }
  assert (S1 : forall l, channel_steps i (idle ++ l) c1 ddrb = channel_steps i l c1 ddrb).
  { intros l. rewrite channel_steps_app, (power_on_waits i idle c1 ddrb); auto. }
  set (c2 := set_prev_sample_time t1 (set_time t1 (set_state FSM_STATE_SPIN_UP c1))).
  assert (S2 : forall l, channel_steps i ((t1, p1) :: l) c1 ddrb
                         = channel_steps i l c2 (drive_low i ddrb)).
  { intros l. rewrite channel_steps_cons, fsm_channel_power_on by reflexivity.
    rewrite gtb_true; [reflexivity |].
    unfold POWER_ON_JIFFIES, jiffies_sub. cbn [time c1 set_state set_time].
    rewrite Z.sub_0_r, jiffies_wrap_small; lia. }
  rewrite <- H5 in Hspin, Ht2.
  destruct (spin_up_waits i spin t1 c2 (drive_low i ddrb) eq_refl eq_refl Hspin) as (W1 & W2).
  split; [| split; [| split; [| split]]].
  - now rewrite S0.
  - rewrite S0. rewrite <- (app_nil_r idle), S1. reflexivity.
  - rewrite S0, S1, S2. reflexivity.
  - rewrite S0, S1, S2. exact W1.
  - rewrite S0, S1, S2, channel_steps_app, channel_steps_cons. cbn [channel_steps fst].
    rewrite fsm_channel_spin_up by exact W1. cbv zeta. cbn [fst]. rewrite W2.
    now rewrite (gtb_true _ _ Ht2).
Qed.

(** *** Window continuity *)

Lemma spec_sampling_step_fields (t : Z) (x : bool) c c2 :
  sampling_fields c = sampling_fields c2 ->
  sampling_fields (spec_sampling_step t x c) = sampling_fields (spec_sampling_step t x c2).
Proof.
  unfold sampling_fields. intros [= E1 E2 E3 E4].
  unfold spec_sampling_step, window_boundary, spec_count_toggle. rewrite E3.
  destruct (Bool.eqb x (prev_input_state c2));
    cbn [prev_sample_time under_threshold prev_input_state toggles];
    rewrite ?E1, ?E4; destruct (_ >? _);
    cbn [prev_sample_time under_threshold prev_input_state toggles]; congruence.
Qed.

Lemma sampling_state_step (i : nat) (t p : Z) c ddrb :
  sampling_state (state c) -> sampling_state (state (fst (fsm_channel i t p c ddrb))).
Proof.
  intros [E | E].
  - rewrite fsm_channel_spin_up by assumption. cbv zeta. cbn [fst].
    destruct (_ >? _); [now right |].
    rewrite (proj1 (spec_sampling_step_frame _ _ c)). now left.
  - rewrite fsm_channel_running by assumption. cbv zeta. cbn [fst].
    rewrite (proj1 (spec_sampling_step_frame _ _ c)). now right.
Qed.

(** Over a run that begins in SpinUp or Running the sampling fields move as
    if the sampling step alone were run, wherever the channel goes from
    SpinUp to Running. *)
Lemma sampling_run (i : nat) (l : list (Z * Z)) :
  forall c c2 ddrb,
    sampling_state (state c) ->
    sampling_fields c = sampling_fields c2 ->
    sampling_fields (fst (channel_steps i l c ddrb))
    = sampling_fields (spec_sampling_steps i l c2).
Proof.
  induction l as [| [t p] l IH]; intros c c2 ddrb Hs Hf; [exact Hf |].
  rewrite channel_steps_cons. cbn [spec_sampling_steps].
  apply IH; [now apply sampling_state_step |].
  rewrite sampling_fields_step by assumption. now apply spec_sampling_step_fields.
Qed.

(** C7. A step made in SpinUp is the sampling step followed, when the
    spin-up time is over, by the assignment of Running to the state field:
    the step that makes the transition differs from the sampling step in the
    state field only. Mid-window it leaves the window start and the verdict
    as they are and the toggle count as the sampling step left it. The step
    made in Running runs the same sampling step, so over a run that crosses
    the transition the sampling fields are those of the sampling step run
    alone: no window is skipped and none is reset twice. *)
Theorem window_continuity (i : nat) c (ddrb : Z) :
  state c = FSM_STATE_SPIN_UP ->
  (forall t p,
     let c' := fst (fsm_channel i t p c ddrb) in
     let sampled := spec_sampling_step t (read_input i p) c in
     snd (fsm_channel i t p c ddrb) = ddrb /\
     ((jiffies_sub t (time c) >? SPIN_UP_JIFFIES) = true ->
      c' = set_state FSM_STATE_RUNNING sampled /\
      sampling_fields c' = sampling_fields sampled /\
      time c' = time c /\
      (window_boundary t c = false ->
       prev_sample_time c' = prev_sample_time c /\
       under_threshold c' = under_threshold c /\
       toggles c' = (if Bool.eqb (read_input i p) (prev_input_state c)
                     then toggles c else uint32 (toggles c + 1)))) /\
     sampling_fields c'
     = sampling_fields (fst (fsm_channel i t p (set_state FSM_STATE_RUNNING c) ddrb))) /\
  (forall l,
     sampling_fields (fst (channel_steps i l c ddrb))
     = sampling_fields (spec_sampling_steps i l c)).
Proof.
  intros Hs. split.
  - intros t p. cbv zeta. rewrite fsm_channel_spin_up by assumption. cbv zeta.
    cbn [fst snd]. split; [reflexivity |]. split.
    + intros Ht. rewrite Ht. split; [reflexivity |]. split; [reflexivity |].
      split; [apply spec_sampling_step_frame |].
      intros Hb. unfold spec_sampling_step. rewrite window_boundary_count_toggle, Hb.
      unfold spec_count_toggle. now destruct (Bool.eqb _ _).
    + rewrite fsm_channel_running by reflexivity. cbv zeta. cbn [fst].
      transitivity (sampling_fields (spec_sampling_step t (read_input i p) c)).
      * now destruct (_ >? _).
      * now apply spec_sampling_step_fields.
  - intros l. apply sampling_run; [now left | reflexivity].
Qed.

(** *** The output pins *)

Lemma uint8_bit (x n : Z) : 0 <= n < 8 -> Z.testbit (uint8 x) n = Z.testbit x n.
Proof. intros Hn. unfold uint8. apply Z.mod_pow2_bits_low. lia. Qed.

Lemma out_pin_range (i : nat) : 0 <= out_pin i < 8.
Proof. unfold out_pin, PINB0, PINB1. destruct (i =? 0)%nat; lia. Qed.

Lemma drive_low_own (i : nat) (ddrb : Z) : driven_low i (drive_low i ddrb) = true.
Proof.
  unfold driven_low, drive_low, out_pin, PINB0, PINB1.
  destruct (i =? 0)%nat; rewrite uint8_bit, Z.lor_spec by lia; apply orb_true_r.
Qed.

Lemma float_high_own (i : nat) (ddrb : Z) : driven_low i (float_high i ddrb) = false.
Proof.
  unfold driven_low, float_high, out_pin, PINB0, PINB1.
  destruct (i =? 0)%nat; rewrite uint8_bit, Z.land_spec, Z.lnot_spec by lia;
    apply andb_false_r.
Qed.

Lemma drive_low_other (i j : nat) (ddrb : Z) :
  (i < 2)%nat -> (j < 2)%nat -> i <> j ->
  driven_low i (drive_low j ddrb) = driven_low i ddrb.
Proof.
  intros Hi Hj Hne. unfold driven_low, drive_low, out_pin, PINB0, PINB1.
  destruct i as [| [| i]]; destruct j as [| [| j]]; try lia; cbn [Nat.eqb];
    rewrite uint8_bit, Z.lor_spec by lia; apply orb_false_r.
Qed.

Lemma float_high_other (i j : nat) (ddrb : Z) :
  (i < 2)%nat -> (j < 2)%nat -> i <> j ->
  driven_low i (float_high j ddrb) = driven_low i ddrb.
Proof.
  intros Hi Hj Hne. unfold driven_low, float_high, out_pin, PINB0, PINB1.
  destruct i as [| [| i]]; destruct j as [| [| j]]; try lia; cbn [Nat.eqb];
    rewrite uint8_bit, Z.land_spec, Z.lnot_spec by lia; apply andb_true_r.
Qed.

Lemma drive_low_cong (i : nat) (d d' : Z) :
  driven_low i (drive_low i d) = driven_low i (drive_low i d').
Proof. now rewrite !drive_low_own. Qed.

Lemma float_high_cong (i : nat) (d d' : Z) :
  driven_low i (float_high i d) = driven_low i (float_high i d').
Proof. now rewrite !float_high_own. Qed.

(** What a step does to the data direction register: nothing, or
    [drive_low], or [float_high], on the channel's own pin. *)
Lemma fsm_channel_ddrb (i : nat) (t p : Z) c :
  exists k : nat,
    (k < 3)%nat /\
    forall d, snd (fsm_channel i t p c d)
              = match k with
                | O => d
                | S O => drive_low i d
                | _ => float_high i d
                end.
Proof.
  destruct (valid_state_cases (state c)) as [[E | [E | [E | E]]] | E].
  - exists 0%nat. split; [lia |]. intros d. now rewrite fsm_channel_init.
  - destruct (jiffies_sub t (time c) >? POWER_ON_JIFFIES) eqn:G.
    + exists 1%nat. split; [lia |]. intros d.
      rewrite fsm_channel_power_on by assumption. now rewrite G.
    + exists 0%nat. split; [lia |]. intros d.
      rewrite fsm_channel_power_on by assumption. now rewrite G.
  - exists 0%nat. split; [lia |]. intros d. now rewrite fsm_channel_spin_up.
  - destruct (under_threshold (spec_sampling_step t (read_input i p) c)) eqn:G.
    + exists 2%nat. split; [lia |]. intros d.
      rewrite fsm_channel_running by assumption. cbv zeta. cbn [snd]. now rewrite G.
    + exists 1%nat. split; [lia |]. intros d.
      rewrite fsm_channel_running by assumption. cbv zeta. cbn [snd]. now rewrite G.
  - exists 2%nat. split; [lia |]. intros d. now rewrite fsm_channel_default.
Qed.

Lemma fsm_channel_fst (i : nat) (t p : Z) c d d' :
  fst (fsm_channel i t p c d) = fst (fsm_channel i t p c d').
Proof.
  destruct (valid_state_cases (state c)) as [[E | [E | [E | E]]] | E].
  - now rewrite !fsm_channel_init.
  - rewrite !fsm_channel_power_on by assumption. now destruct (_ >? _).
  - now rewrite !fsm_channel_spin_up.
  - now rewrite !fsm_channel_running.
  - now rewrite !fsm_channel_default.
Qed.

Lemma fsm_channel_other_pin (i j : nat) (t p : Z) c d :
  (i < 2)%nat -> (j < 2)%nat -> i <> j ->
  driven_low i (snd (fsm_channel j t p c d)) = driven_low i d.
Proof.
  intros Hi Hj Hne. destruct (fsm_channel_ddrb j t p c) as (k & Hk & E).
  rewrite E. destruct k as [| [| k]];
    [reflexivity | now apply drive_low_other | now apply float_high_other].
Qed.

Lemma fsm_channel_own_pin (i : nat) (t p : Z) c d d' :
  driven_low i d = driven_low i d' ->
  driven_low i (snd (fsm_channel i t p c d)) = driven_low i (snd (fsm_channel i t p c d')).
Proof.
  intros Hd. destruct (fsm_channel_ddrb i t p c) as (k & Hk & E).
  rewrite !E. destruct k as [| [| k]];
    [assumption | apply drive_low_cong | apply float_high_cong].
Qed.

Lemma channel_steps_ddrb (i : nat) (l : list (Z * Z)) :
  forall c d d',
    driven_low i d = driven_low i d' ->
    fst (channel_steps i l c d) = fst (channel_steps i l c d') /\
    driven_low i (snd (channel_steps i l c d)) = driven_low i (snd (channel_steps i l c d')).
Proof.
  induction l as [| [t p] l IH]; intros c d d' Hd; [now split |].
  rewrite !channel_steps_cons, (fsm_channel_fst i t p c d d').
  apply IH. now apply fsm_channel_own_pin.
Qed.

(** *** From the instance to its channels *)

Lemma fsm_run_at_two (t : Z) (pinb : nat -> Z) c0 c1 (d : Z) :
  fsm_run_at t pinb (mkApp [c0; c1], d)
  = (mkApp [fst (fsm_channel 0 t (pinb 0%nat) c0 d);
            fst (fsm_channel 1 t (pinb 1%nat) c1 (snd (fsm_channel 0 t (pinb 0%nat) c0 d)))],
     snd (fsm_channel 1 t (pinb 1%nat) c1 (snd (fsm_channel 0 t (pinb 0%nat) c0 d)))).
Proof.
  unfold fsm_run_at, NUM_CHANNELS. cbn [fsm_for nth_error channels].
  destruct (fsm_channel 0 t (pinb 0%nat) c0 d) as [c0' d0].
  cbn [store_channel nth_error channels fst snd].
  destruct (fsm_channel 1 t (pinb 1%nat) c1 d0) as [c1' d1]. reflexivity.
Qed.

Lemma well_formed_two (st : rpm_to_locked_rotor_app * Z) :
  well_formed st -> exists c0 c1 d, st = (mkApp [c0; c1], d).
Proof.
  unfold well_formed, NUM_CHANNELS. destruct st as [[l] d]. cbn [fst channels].
  destruct l as [| c0 [| c1 [| c2 l]]]; try discriminate. intros _. now exists c0, c1, d.
Qed.

(** One pass of the main loop steps each channel on its own inputs; the pin
    of a channel is touched by the step of that channel only. *)
Lemma fsm_run_at_channel (i : nat) (t : Z) (pinb : nat -> Z) st c :
  well_formed st -> channel_at i st = Some c ->
  well_formed (fsm_run_at t pinb st) /\
  channel_at i (fsm_run_at t pinb st) = Some (fst (fsm_channel i t (pinb i) c (snd st))) /\
  driven_low i (snd (fsm_run_at t pinb st))
  = driven_low i (snd (fsm_channel i t (pinb i) c (snd st))).
Proof.
  intros Hwf Hc. destruct (well_formed_two st Hwf) as (c0 & c1 & d & ->).
  rewrite fsm_run_at_two. unfold channel_at, well_formed in *. cbn [fst snd channels] in *.
  split; [reflexivity |].
  destruct i as [| [| i]]; cbn [nth_error] in Hc |- *.
  - injection Hc as <-. split; [reflexivity |].
    apply fsm_channel_other_pin; lia.
  - injection Hc as <-. split.
    + f_equal. apply fsm_channel_fst.
    + apply fsm_channel_own_pin. apply fsm_channel_other_pin; lia.
  - destruct i; discriminate.
Qed.

Lemma fsm_steps_channel (i : nat) (l : list (Z * (nat -> Z))) :
  forall st c,
    well_formed st -> channel_at i st = Some c ->
    well_formed (fsm_steps l st) /\
    channel_at i (fsm_steps l st)
    = Some (fst (channel_steps i (channel_inputs i l) c (snd st))) /\
    driven_low i (snd (fsm_steps l st))
    = driven_low i (snd (channel_steps i (channel_inputs i l) c (snd st))).
Proof.
  induction l as [| [t pinb] l IH]; intros st c Hwf Hc.
  - simpl. auto.
  - cbn [fsm_steps channel_inputs map fst snd]. fold (channel_inputs i l).
    rewrite channel_steps_cons.
    destruct (fsm_run_at_channel i t pinb st c Hwf Hc) as (Hwf' & Hc' & Hd').
    destruct (IH _ _ Hwf' Hc') as (K1 & K2 & K3).
    destruct (channel_steps_ddrb i (channel_inputs i l)
                (fst (fsm_channel i t (pinb i) c (snd st))) _ _ Hd') as (E1 & E2).
    split; [assumption |]. split; [now rewrite K2, E1 | now rewrite K3, E2].
Qed.

Lemma fsm_steps_app (l1 l2 : list (Z * (nat -> Z))) st :
  fsm_steps (l1 ++ l2) st = fsm_steps l2 (fsm_steps l1 st).
Proof.
  revert st. induction l1 as [| [t pinb] l1 IH]; intros st; [reflexivity |].
  simpl. apply IH.
Qed.

(** A pass of the main loop always completes: the clock is read, then every
    channel is stepped with that one value. *)
Lemma fsm_run_total (fuel : nat) (w : world) (pinb : nat -> Z) st :
  (2 <= fuel)%nat ->
  exists curr_time w',
    jiffies fuel w = Some (curr_time, w') /\
    fsm_run fuel w pinb st = Some (w', fsm_run_at curr_time pinb st).
Proof.
  intros Hf. destruct (jiffies_total fuel w Hf) as (curr_time & w' & J).
  exists curr_time, w'. split; [exact J |]. unfold fsm_run. now rewrite J.
Qed.

Lemma g_inst_well_formed (ddrb : Z) : well_formed (g_inst, ddrb).
Proof. reflexivity. Qed.

Lemma g_inst_channel (i : nat) (ddrb : Z) :
  (i < 2)%nat -> channel_at i (g_inst, ddrb) = Some channel_zero.
Proof. intros Hi. destruct i as [| [| i]]; [reflexivity | reflexivity | lia]. Qed.

(** *** Order of the states *)

Lemma fsm_channel_next (i : nat) (t p : Z) c ddrb :
  fsm_next (state c) (state (fst (fsm_channel i t p c ddrb))).
Proof.
  unfold fsm_next.
  destruct (valid_state_cases (state c)) as [[E | [E | [E | E]]] | E].
  - rewrite fsm_channel_init by assumption. right. left. now split.
  - rewrite fsm_channel_power_on by assumption.
    destruct (_ >? _); [right; right; left; now split | now left].
  - rewrite fsm_channel_spin_up by assumption. cbv zeta. cbn [fst].
    destruct (_ >? _).
    + right. right. right. now split.
    + left. apply spec_sampling_step_frame.
  - rewrite fsm_channel_running by assumption. left. apply spec_sampling_step_frame.
  - rewrite fsm_channel_default by assumption. now left.
Qed.

Lemma fsm_next_forward (s s' : Z) :
  fsm_next s s' ->
  s <= s' /\ (s = FSM_STATE_RUNNING -> s' = FSM_STATE_RUNNING) /\
  (valid_state s -> valid_state s').
Proof.
  unfold fsm_next, valid_state.
  intros [-> | [[-> ->] | [[-> ->] | [-> ->]]]]; repeat split; auto; lia.
Qed.

Lemma channel_steps_forward (i : nat) (l : list (Z * Z)) :
  forall c ddrb,
    state c <= state (fst (channel_steps i l c ddrb)) /\
    (state c = FSM_STATE_RUNNING ->
     state (fst (channel_steps i l c ddrb)) = FSM_STATE_RUNNING) /\
    (valid_state (state c) -> valid_state (state (fst (channel_steps i l c ddrb)))).
Proof.
  induction l as [| [t p] l IH]; intros c ddrb.
  - simpl. repeat split; auto; lia.
  - rewrite channel_steps_cons.
    destruct (fsm_next_forward _ _ (fsm_channel_next i t p c ddrb)) as (A1 & A2 & A3).
    destruct (IH (fst (fsm_channel i t p c ddrb)) (snd (fsm_channel i t p c ddrb)))
      as (B1 & B2 & B3).
    repeat split; auto; lia.
Qed.

(** C9. The state field of every channel moves only along Init, PowerOn,
    SpinUp, Running: a pass of the main loop leaves it as it is or takes it
    one state forward; over a run it never decreases, so a state found again
    later was never left in between; and a channel in Running is in Running
    after every further run. *)
Theorem state_order (i : nat) st c :
  well_formed st -> channel_at i st = Some c ->
  (forall t pinb,
     exists s', state_at i (fsm_run_at t pinb st) = Some s' /\ fsm_next (state c) s') /\
  (forall l1 l2,
     exists s1 s2,
       state_at i (fsm_steps l1 st) = Some s1 /\
       state_at i (fsm_steps (l1 ++ l2) st) = Some s2 /\
       s1 <= s2 /\ (valid_state (state c) -> valid_state s1)) /\
  (forall l1 l2 l3,
     state_at i (fsm_steps (l1 ++ l2 ++ l3) st) = state_at i (fsm_steps l1 st) ->
     state_at i (fsm_steps (l1 ++ l2) st) = state_at i (fsm_steps l1 st)) /\
  (state c = FSM_STATE_RUNNING ->
   forall l, state_at i (fsm_steps l st) = Some FSM_STATE_RUNNING).
Proof.
  intros Hwf Hc.
  assert (Hord : forall l1 l2,
             exists c1 c2,
               well_formed (fsm_steps l1 st) /\
               channel_at i (fsm_steps l1 st) = Some c1 /\
               channel_at i (fsm_steps (l1 ++ l2) st) = Some c2 /\
               state c1 <= state c2 /\ (valid_state (state c) -> valid_state (state c1))).
  { intros l1 l2.
    destruct (fsm_steps_channel i l1 st c Hwf Hc) as (W1 & C1 & _).
    destruct (fsm_steps_channel i l2 _ _ W1 C1) as (_ & C2 & _).
    do 2 eexists. rewrite fsm_steps_app.
    split; [exact W1 |]. split; [exact C1 |]. split; [exact C2 |].
    split; [apply channel_steps_forward | apply channel_steps_forward]. }
  split; [| split; [| split]].
  - intros t pinb.
    destruct (fsm_run_at_channel i t pinb st c Hwf Hc) as (_ & C1 & _).
    unfold state_at. rewrite C1. eexists. split; [reflexivity |]. apply fsm_channel_next.
  - intros l1 l2. destruct (Hord l1 l2) as (c1 & c2 & _ & C1 & C2 & Hle & Hv).
    exists (state c1), (state c2). unfold state_at. rewrite C1, C2. auto.
  - intros l1 l2 l3.
    destruct (Hord l1 l2) as (c1 & c2 & _ & C1 & C2 & Hle & _).
    destruct (Hord (l1 ++ l2) l3) as (c2' & c3 & _ & C2' & C3 & Hle' & _).
    rewrite <- app_assoc in C3. unfold state_at. rewrite C1, C2, C3. cbn [option_map].
    intros [= E]. f_equal. assert (c2' = c2) by congruence. subst c2'. lia.
  - intros Hr l.
    destruct (fsm_steps_channel i l st c Hwf Hc) as (_ & C1 & _).
    unfold state_at. rewrite C1. cbn [option_map]. f_equal.
    now apply channel_steps_forward.
Qed.

(** *** Fail-safe *)

Lemma floating_high_driven_low (i : nat) (ddrb : Z) :
  floating_high i ddrb = negb (driven_low i ddrb).
Proof. reflexivity. Qed.

Lemma fail_safe_steps (i : nat) (l : list (Z * Z)) c :
  ~ valid_state (state c) ->
  forall ddrb,
    fst (channel_steps i l c ddrb) = c /\
    (l <> [] -> driven_low i (snd (channel_steps i l c ddrb)) = false).
Proof.
  intros Hn. induction l as [| [t p] l IH]; intros ddrb.
  - split; [reflexivity | congruence].
  - rewrite channel_steps_cons, fsm_channel_default by assumption. cbn [fst snd].
    destruct (IH (float_high i ddrb)) as (K1 & K2). split; [assumption |].
    intros _. destruct l as [| s l]; [apply float_high_own | apply K2; discriminate].
Qed.

(** C8. When the state field of a channel holds a value outside Init,
    PowerOn, SpinUp and Running, the next pass of the main loop floats the
    output of the channel high and changes nothing in the channel, the state
    field included; so the same holds after every further pass. *)
Theorem fail_safe (i : nat) st c :
  well_formed st -> channel_at i st = Some c ->
  ~ valid_state (state c) ->
  (forall t pinb,
     channel_at i (fsm_run_at t pinb st) = Some c /\
     floating_high i (snd (fsm_run_at t pinb st)) = true) /\
  (forall l, l <> [] ->
     channel_at i (fsm_steps l st) = Some c /\
     floating_high i (snd (fsm_steps l st)) = true).
Proof.
  intros Hwf Hc Hn. split.
  - intros t pinb.
    destruct (fsm_run_at_channel i t pinb st c Hwf Hc) as (_ & C1 & D1).
    rewrite floating_high_driven_low, C1, D1, fsm_channel_default by assumption.
    cbn [fst snd]. now rewrite float_high_own.
  - intros l Hl.
    destruct (fsm_steps_channel i l st c Hwf Hc) as (_ & C1 & D1).
    destruct (fail_safe_steps i (channel_inputs i l) c Hn (snd st)) as (K1 & K2).
    rewrite floating_high_driven_low, C1, D1, K1, K2; [auto |].
    destruct l; [congruence | discriminate].
Qed.

(** *** Output *)



(** *** The first verdict *)

Lemma latched_in_later (i : nat) (l : list (Z * Z)) (s : Z * Z) c0 ddrb (u : bool) :
  latched_in i l c0 ddrb u -> latched_in i (l ++ [s]) c0 ddrb u.
Proof.
  intros (l1 & t & p & l2 & -> & H). exists l1, t, p, (l2 ++ [s]).
  split; [now rewrite <- app_assoc | exact H].
Qed.

Lemma sampling_step_verdict (i : nat) (t p : Z) c ddrb :
  sampling_state (state c) ->
  let c' := fst (fsm_channel i t p c ddrb) in
  (window_boundary t c = true ->
   under_threshold c'
   = ((if Bool.eqb (read_input i p) (prev_input_state c)
       then toggles c else uint32 (toggles c + 1)) <? TOGGLE_COUNT_THRESHOLD)) /\
  (window_boundary t c = false ->
   under_threshold c' = under_threshold c /\ prev_sample_time c' = prev_sample_time c).
Proof.
  intros Hs. cbv zeta.
  pose proof (sampling_fields_step i t p c ddrb Hs) as F.
  unfold sampling_fields, spec_sampling_step in F.
  rewrite window_boundary_count_toggle in F.
  split; intros Hb; rewrite Hb in F; injection F as F1 F2 F3 F4.
  - rewrite F2. cbn [toggles]. unfold spec_count_toggle. now destruct (Bool.eqb _ _).
  - rewrite F1, F2. unfold spec_count_toggle. now destruct (Bool.eqb _ _).
Qed.

(** Invariant of a run from the zeroed record: in SpinUp either no window
    has been closed yet, and then the window began when SpinUp was entered,
    or a verdict has been latched; in Running a verdict has been latched. *)
Lemma verdict_latched (i : nat) (ddrb : Z) (l : list (Z * Z)) :
  SAMPLE_JIFFIES <= SPIN_UP_JIFFIES ->
  let c := fst (channel_steps i l channel_zero ddrb) in
  (state c = FSM_STATE_SPIN_UP ->
   prev_sample_time c = time c \/ latched_in i l channel_zero ddrb (under_threshold c)) /\
  (state c = FSM_STATE_RUNNING -> latched_in i l channel_zero ddrb (under_threshold c)).
Proof.
  intros Hle. cbv zeta. induction l as [| [t p] l IH] using rev_ind.
  - split; discriminate.
  - rewrite channel_steps_app, channel_steps_cons. cbn [channel_steps fst].
    set (c := fst (channel_steps i l channel_zero ddrb)) in *.
    set (d := snd (channel_steps i l channel_zero ddrb)) in *.
    destruct IH as (IH1 & IH2).
    assert (Hnew : sampling_state (state c) -> window_boundary t c = true ->
                   latched_in i (l ++ [(t, p)]) channel_zero ddrb
                     (under_threshold (fst (fsm_channel i t p c d)))).
    { intros Hs Hb. exists l, t, p, []. split; [reflexivity |]. fold c.
      split; [exact Hs |]. split; [exact Hb |].
      now apply (sampling_step_verdict i t p c d Hs). }
    destruct (valid_state_cases (state c)) as [[E | [E | [E | E]]] | E].
    + rewrite fsm_channel_init by assumption. cbn. split; discriminate.
    + rewrite fsm_channel_power_on by assumption.
      destruct (_ >? _); cbn [fst]; [| rewrite E; split; discriminate].
      split; [now left | discriminate].
    + assert (Hs : sampling_state (state c)) by now left.
      destruct (window_boundary t c) eqn:Hb.
      * split; intros _; [right |]; now apply Hnew.
      * destruct (sampling_step_verdict i t p c d Hs) as (_ & V). destruct (V Hb) as (V1 & V2).
        rewrite V1.
        assert (T : time (fst (fsm_channel i t p c d)) = time c).
        { rewrite fsm_channel_spin_up by assumption. cbv zeta. cbn [fst].
          destruct (_ >? _); apply spec_sampling_step_frame. }
        split.
        -- intros _. destruct (IH1 E) as [P | L].
           ++ left. congruence.
           ++ right. now apply latched_in_later.
        -- intros Hr. destruct (IH1 E) as [P | L]; [| now apply latched_in_later].
           exfalso. rewrite fsm_channel_spin_up in Hr by assumption.
           cbv zeta in Hr. cbn [fst] in Hr.
           destruct (jiffies_sub t (time c) >? SPIN_UP_JIFFIES) eqn:G.
           ++ unfold window_boundary in Hb. rewrite P in Hb.
              rewrite Z.gtb_ltb in G, Hb. apply Z.ltb_lt in G. apply Z.ltb_ge in Hb. lia.
           ++ rewrite (proj1 (spec_sampling_step_frame _ _ c)), E in Hr. discriminate.
    + assert (Hs : sampling_state (state c)) by now right.
      split.
      * intros Hr. rewrite fsm_channel_running in Hr by assumption.
        cbv zeta in Hr. cbn [fst] in Hr.
        rewrite (proj1 (spec_sampling_step_frame _ _ c)), E in Hr. discriminate.
      * intros _. destruct (window_boundary t c) eqn:Hb; [now apply Hnew |].
        destruct (sampling_step_verdict i t p c d Hs) as (_ & V). destruct (V Hb) as (V1 & _).
        rewrite V1. apply latched_in_later. now apply IH2.
    + rewrite fsm_channel_default by assumption. cbn [fst].
      split; intros E'; exfalso; apply E; unfold valid_state; auto.
Qed.

(** C10. With [SPIN_UP_JIFFIES] at least [SAMPLE_JIFFIES], a channel found
    in Running after a run of the main loop from start-up has had a window
    boundary during the run, the pass that took it to Running at the latest,
    and its [under_threshold] is the verdict latched at a boundary of the
    run, from the toggle count of a window that ran its full length. *)
Theorem first_verdict_from_window (i : nat) (l : list (Z * (nat -> Z))) (ddrb : Z) c :
  SAMPLE_JIFFIES <= SPIN_UP_JIFFIES ->
  (i < NUM_CHANNELS)%nat ->
  channel_at i (fsm_steps l (g_inst, ddrb)) = Some c ->
  state c = FSM_STATE_RUNNING ->
  exists l1 t pinb l2 c1,
    l = l1 ++ (t, pinb) :: l2 /\
    channel_at i (fsm_steps l1 (g_inst, ddrb)) = Some c1 /\
    sampling_state (state c1) /\
    window_boundary t c1 = true /\
    jiffies_sub t (prev_sample_time c1) > SAMPLE_JIFFIES /\
    under_threshold c
    = ((if Bool.eqb (read_input i (pinb i)) (prev_input_state c1)
        then toggles c1 else uint32 (toggles c1 + 1)) <? TOGGLE_COUNT_THRESHOLD).
Proof.
  unfold NUM_CHANNELS. intros Hle Hi Hc Hs.
  destruct (fsm_steps_channel i l _ _ (g_inst_well_formed ddrb) (g_inst_channel i ddrb Hi))
    as (_ & C1 & _).
  rewrite C1 in Hc. injection Hc as <-. cbn [snd] in Hs |- *.
  destruct (verdict_latched i ddrb (channel_inputs i l) Hle) as (_ & L).
  destruct (L Hs) as (l1' & t & p & l2' & Hl & K1 & K2 & K3).
  unfold channel_inputs in Hl. apply map_eq_app in Hl.
  destruct Hl as (l1 & r & -> & <- & Hr).
  apply map_eq_cons in Hr. destruct Hr as ([t' pinb] & l2 & -> & [= <- <-] & <-).
  cbn [fst snd] in *.
  destruct (fsm_steps_channel i l1 _ _ (g_inst_well_formed ddrb) (g_inst_channel i ddrb Hi))
    as (_ & C1' & _).
  exists l1, t', pinb, l2. eexists. split; [reflexivity |]. split; [exact C1' |].
  cbn [snd]. fold (channel_inputs i l1).
  split; [exact K1 |]. split; [exact K2 |]. split; [| exact K3].
  unfold window_boundary in K2. rewrite Z.gtb_ltb in K2. apply Z.ltb_lt in K2.
  apply Z.lt_gt. exact K2.
Qed.

(** ** Further properties *)

(** *** The pin helpers *)

Lemma land_bit (p k : Z) :
  0 <= k -> negb (Z.land p (Z.shiftl 1 k) =? 0) = Z.testbit p k.
Proof.
  intros Hk. rewrite Z.shiftl_1_l.
  destruct (Z.testbit p k) eqn:B.
  - apply negb_true_iff, Z.eqb_neq. intros E.
    assert (F : Z.testbit (Z.land p (2 ^ k)) k = false) by (rewrite E; apply Z.bits_0).
    rewrite Z.land_spec, B, Z.pow2_bits_true in F by assumption. discriminate.
  - apply negb_false_iff, Z.eqb_eq. apply Z.bits_inj'. intros n Hn.
    rewrite Z.land_spec, Z.bits_0, Z.pow2_bits_eqb by assumption.
    destruct (Z.eqb_spec k n) as [<- | _]; [now rewrite B | apply andb_false_r].
Qed.

(** X1. [read_input] returns bit [PINB2] of the port value for channel 0
    and bit [PINB3] for every other channel index: port values that agree on
    that bit give the same level. *)
Theorem read_input_own_pin (i : nat) (pinb pinb' : Z) :
  read_input i pinb = Z.testbit pinb (in_pin i) /\
  (Z.testbit pinb (in_pin i) = Z.testbit pinb' (in_pin i) ->
   read_input i pinb = read_input i pinb').
Proof.
  assert (E : forall p, read_input i p = Z.testbit p (in_pin i)).
  { intros p. unfold read_input, in_pin, PINB2, PINB3.
    destruct (i =? 0)%nat; apply land_bit; lia. }
  split; [apply E |]. intros H. now rewrite !E.
Qed.

Lemma uint8_range (x : Z) : 0 <= uint8 x < 256.
Proof. unfold uint8. apply Z.mod_pos_bound. lia. Qed.

Lemma uint8_bits (x n : Z) :
  0 <= n -> Z.testbit (uint8 x) n = (n <? 8) && Z.testbit x n.
Proof.
  intros Hn. destruct (Z.ltb_spec n 8) as [L | L].
  - now rewrite uint8_bit by lia.
  - unfold uint8. rewrite Z.mod_pow2_bits_high by lia. reflexivity.
Qed.

Lemma byte_high_bits (d n : Z) : 0 <= d < 256 -> 8 <= n -> Z.testbit d n = false.
Proof.
  intros Hd Hn. rewrite <- (Z.mod_small d (2 ^ 8)) by (change (2 ^ 8) with 256; lia).
  apply Z.mod_pow2_bits_high. lia.
Qed.

Lemma drive_low_bits (i : nat) (d n : Z) :
  0 <= d < 256 -> 0 <= n ->
  Z.testbit (drive_low i d) n = if n =? out_pin i then true else Z.testbit d n.
Proof.
  intros Hd Hn. pose proof (out_pin_range i) as Ho.
  assert (E : drive_low i d = uint8 (Z.lor d (2 ^ out_pin i))).
  { unfold drive_low, out_pin. destruct (i =? 0)%nat; now rewrite Z.shiftl_1_l. }
  rewrite E, uint8_bits, Z.lor_spec, Z.pow2_bits_eqb by lia.
  rewrite (Z.eqb_sym (out_pin i) n).
  destruct (Z.eqb_spec n (out_pin i)) as [-> | Hne].
  - rewrite orb_true_r, andb_true_r. apply Z.ltb_lt. lia.
  - rewrite orb_false_r. destruct (Z.ltb_spec n 8); [reflexivity |].
    simpl. symmetry. now apply byte_high_bits.
Qed.

Lemma float_high_bits (i : nat) (d n : Z) :
  0 <= d < 256 -> 0 <= n ->
  Z.testbit (float_high i d) n = if n =? out_pin i then false else Z.testbit d n.
Proof.
  intros Hd Hn. pose proof (out_pin_range i) as Ho.
  assert (E : float_high i d = uint8 (Z.land d (Z.lnot (2 ^ out_pin i)))).
  { unfold float_high, out_pin. destruct (i =? 0)%nat; now rewrite Z.shiftl_1_l. }
  rewrite E, uint8_bits, Z.land_spec, Z.lnot_spec, Z.pow2_bits_eqb by lia.
  rewrite (Z.eqb_sym (out_pin i) n).
  destruct (Z.eqb_spec n (out_pin i)) as [-> | Hne].
  - simpl. rewrite andb_false_r. apply andb_false_r.
  - simpl. rewrite andb_true_r. destruct (Z.ltb_spec n 8); [reflexivity |].
    simpl. symmetry. now apply byte_high_bits.
Qed.

Lemma drive_low_range (i : nat) (d : Z) : 0 <= drive_low i d < 256.
Proof. unfold drive_low. destruct (i =? 0)%nat; apply uint8_range. Qed.

Lemma float_high_range (i : nat) (d : Z) : 0 <= float_high i d < 256.
Proof. unfold float_high. destruct (i =? 0)%nat; apply uint8_range. Qed.

(** X2. On an 8-bit value of [DDRB], [drive_low] sets the bit of the
    channel's output pin and [float_high] clears it; every other bit keeps
    its value and the result is again an 8-bit value. *)
Theorem pin_helpers_frame (i : nat) (ddrb : Z) :
  0 <= ddrb < 256 ->
  (0 <= drive_low i ddrb < 256 /\ 0 <= float_high i ddrb < 256) /\
  (driven_low i (drive_low i ddrb) = true /\ driven_low i (float_high i ddrb) = false) /\
  (forall n, 0 <= n -> n <> out_pin i ->
     Z.testbit (drive_low i ddrb) n = Z.testbit ddrb n /\
     Z.testbit (float_high i ddrb) n = Z.testbit ddrb n).
Proof.
  intros Hd. split; [split; [apply drive_low_range | apply float_high_range] |].
  split; [split; [apply drive_low_own | apply float_high_own] |].
  intros n Hn Hne.
  rewrite drive_low_bits, float_high_bits by assumption.
  destruct (Z.eqb_spec n (out_pin i)); [contradiction | now split].
Qed.

Lemma out_pin_distinct (i j : nat) :
  (i < 2)%nat -> (j < 2)%nat -> i <> j -> out_pin i <> out_pin j.
Proof.
  intros Hi Hj Hne. unfold out_pin, PINB0, PINB1.
  destruct i as [| [| i]]; destruct j as [| [| j]]; cbn [Nat.eqb]; lia.
Qed.

(** X3. The two helpers compose as writes to one bit: each is idempotent,
    the later of two writes to the same pin wins, a write followed by the
    opposite write gives back a register in which the pin had the final
    level, and writes to the pins of different channels commute. *)
Theorem pin_helpers_compose (i j : nat) (ddrb : Z) :
  0 <= ddrb < 256 ->
  drive_low i (drive_low i ddrb) = drive_low i ddrb /\
  float_high i (float_high i ddrb) = float_high i ddrb /\
  float_high i (drive_low i ddrb) = float_high i ddrb /\
  drive_low i (float_high i ddrb) = drive_low i ddrb /\
  (driven_low i ddrb = false -> float_high i (drive_low i ddrb) = ddrb) /\
  (driven_low i ddrb = true -> drive_low i (float_high i ddrb) = ddrb) /\
  ((i < 2)%nat -> (j < 2)%nat -> i <> j ->
   drive_low i (float_high j ddrb) = float_high j (drive_low i ddrb) /\
   drive_low i (drive_low j ddrb) = drive_low j (drive_low i ddrb) /\
   float_high i (float_high j ddrb) = float_high j (float_high i ddrb)).
Proof.
  intros Hd.
  pose proof (drive_low_range i ddrb) as R1. pose proof (float_high_range i ddrb) as R2.
  pose proof (drive_low_range j ddrb) as R3. pose proof (float_high_range j ddrb) as R4.
  repeat apply conj.
  - apply Z.bits_inj'. intros n Hn. rewrite !drive_low_bits by assumption.
    now destruct (n =? out_pin i).
  - apply Z.bits_inj'. intros n Hn. rewrite !float_high_bits by assumption.
    now destruct (n =? out_pin i).
  - apply Z.bits_inj'. intros n Hn.
    rewrite !float_high_bits, drive_low_bits by assumption. now destruct (n =? out_pin i).
  - apply Z.bits_inj'. intros n Hn.
    rewrite !drive_low_bits, float_high_bits by assumption. now destruct (n =? out_pin i).
  - intros Hb. apply Z.bits_inj'. intros n Hn.
    rewrite float_high_bits, drive_low_bits by assumption.
    unfold driven_low in Hb.
    destruct (Z.eqb_spec n (out_pin i)) as [-> | _]; [now rewrite Hb | reflexivity].
  - intros Hb. apply Z.bits_inj'. intros n Hn.
    rewrite drive_low_bits, float_high_bits by assumption.
    unfold driven_low in Hb.
    destruct (Z.eqb_spec n (out_pin i)) as [-> | _]; [now rewrite Hb | reflexivity].
  - intros Hi Hj Hne. pose proof (out_pin_distinct i j Hi Hj Hne) as Ho.
    repeat apply conj; apply Z.bits_inj'; intros n Hn;
      repeat first [rewrite drive_low_bits by assumption
                   | rewrite float_high_bits by assumption];
      destruct (Z.eqb_spec n (out_pin i)); destruct (Z.eqb_spec n (out_pin j));
      try reflexivity; congruence.
Qed.

(** *** The data direction register over a run *)

Lemma fsm_channel_ddrb_frame (i : nat) (t p : Z) c (d : Z) :
  0 <= d < 256 ->
  0 <= snd (fsm_channel i t p c d) < 256 /\
  forall n, 0 <= n -> n <> out_pin i ->
    Z.testbit (snd (fsm_channel i t p c d)) n = Z.testbit d n.
Proof.
  intros Hd. destruct (fsm_channel_ddrb i t p c) as (k & _ & E). rewrite E.
  pose proof (drive_low_range i d) as R1. pose proof (float_high_range i d) as R2.
  destruct k as [| [| k]]; (split; [assumption |]); intros n Hn Hne;
    rewrite ?drive_low_bits, ?float_high_bits by assumption;
    destruct (Z.eqb_spec n (out_pin i)); try contradiction; reflexivity.
Qed.

Lemma fsm_run_at_well_formed (t : Z) (pinb : nat -> Z) st :
  well_formed st -> well_formed (fsm_run_at t pinb st).
Proof.
  intros Hwf. destruct (well_formed_two st Hwf) as (c0 & c1 & d & ->).
  now rewrite fsm_run_at_two.
Qed.

(** X4. Over any run of the main loop [DDRB] stays an 8-bit value and only
    the bits of the two output pins [PINB0] and [PINB1] can change: the
    input pins and the unused pins are never made outputs. *)
Theorem ddrb_frame (l : list (Z * (nat -> Z))) st :
  well_formed st -> 0 <= snd st < 256 ->
  0 <= snd (fsm_steps l st) < 256 /\
  forall n, 0 <= n -> n <> PINB0 -> n <> PINB1 ->
    Z.testbit (snd (fsm_steps l st)) n = Z.testbit (snd st) n.
Proof.
  revert st. induction l as [| [t pinb] l IH]; intros st Hwf Hd.
  - simpl. auto.
  - cbn [fsm_steps].
    pose proof (fsm_run_at_well_formed t pinb st Hwf) as Hwf'.
    destruct (well_formed_two st Hwf) as (c0 & c1 & d & ->). cbn [snd] in Hd |- *.
    rewrite fsm_run_at_two in *.
    set (d0 := snd (fsm_channel 0 t (pinb 0%nat) c0 d)) in *.
    set (d1 := snd (fsm_channel 1 t (pinb 1%nat) c1 d0)) in *.
    destruct (fsm_channel_ddrb_frame 0 t (pinb 0%nat) c0 d Hd) as (R0 & F0). fold d0 in R0, F0.
    destruct (fsm_channel_ddrb_frame 1 t (pinb 1%nat) c1 d0 R0) as (R1 & F1). fold d1 in R1, F1.
    destruct (IH _ Hwf' R1) as (R & F). cbn [snd] in R, F.
    split; [exact R |]. intros n Hn H0 H1.
    rewrite F, F1, F0 by assumption. reflexivity.
Qed.

(** *** The two channels *)

Lemma fsm_channel_level (i : nat) (t p p' : Z) c d :
  read_input i p = read_input i p' ->
  fsm_channel i t p c d = fsm_channel i t p' c d.
Proof.
  intros E. destruct (valid_state_cases (state c)) as [[S | [S | [S | S]]] | S].
  - now rewrite !fsm_channel_init.
  - now rewrite !fsm_channel_power_on.
  - rewrite !fsm_channel_spin_up by assumption. now rewrite E.
  - rewrite !fsm_channel_running by assumption. now rewrite E.
  - now rewrite !fsm_channel_default.
Qed.

Lemma channel_steps_levels (i : nat) (l : list (Z * Z)) :
  forall l' c d d',
    channel_levels i l = channel_levels i l' ->
    driven_low i d = driven_low i d' ->
    fst (channel_steps i l c d) = fst (channel_steps i l' c d') /\
    driven_low i (snd (channel_steps i l c d)) = driven_low i (snd (channel_steps i l' c d')).
Proof.
  induction l as [| [t p] l IH]; intros [| [t' p'] l'] c d d' Hl Hd;
    try discriminate; [now split |].
  cbn [channel_levels map fst snd] in Hl. injection Hl as Ht Hp Hl. subst t'.
  rewrite !channel_steps_cons, (fsm_channel_level i t p p' c d Hp),
    (fsm_channel_fst i t p' c d d').
  apply IH; [exact Hl | now apply fsm_channel_own_pin].
Qed.

(** X5. The channels do not interfere: the record and the output pin of
    channel [i] after a run depend only on its record and its pin at the
    start, on the clock values and on the levels of its own input pin; the
    other channel, its inputs and the other bits of the ports have no
    influence. *)
Theorem channel_isolation (i : nat) (l l' : list (Z * (nat -> Z))) st st' c :
  well_formed st -> well_formed st' ->
  channel_at i st = Some c -> channel_at i st' = Some c ->
  driven_low i (snd st) = driven_low i (snd st') ->
  channel_levels i (channel_inputs i l) = channel_levels i (channel_inputs i l') ->
  channel_at i (fsm_steps l st) = channel_at i (fsm_steps l' st') /\
  driven_low i (snd (fsm_steps l st)) = driven_low i (snd (fsm_steps l' st')).
Proof.
  intros Hwf Hwf' Hc Hc' Hd Hl.
  destruct (fsm_steps_channel i l st c Hwf Hc) as (_ & C1 & D1).
  destruct (fsm_steps_channel i l' st' c Hwf' Hc') as (_ & C2 & D2).
  destruct (channel_steps_levels i _ _ c _ _ Hl Hd) as (E1 & E2).
  rewrite C1, C2, D1, D2, E1, E2. now split.
Qed.

Lemma timing_fields_sampling (t : Z) (x : bool) c :
  timing_fields (spec_sampling_step t x c)
  = (state c, time c, if window_boundary t c then t else prev_sample_time c).
Proof.
  unfold timing_fields.
  rewrite spec_sampling_step_window, (proj1 (spec_sampling_step_frame t x c)),
    (proj2 (spec_sampling_step_frame t x c)). reflexivity.
Qed.

Lemma timing_step (i j : nat) (t p p2 : Z) c c2 d d2 :
  timing_fields c = timing_fields c2 ->
  timing_fields (fst (fsm_channel i t p c d))
  = timing_fields (fst (fsm_channel j t p2 c2 d2)).
Proof.
  unfold timing_fields at 1 2. intros [= Es Et Ep].
  assert (Eb : window_boundary t c = window_boundary t c2)
    by (unfold window_boundary; now rewrite Ep).
  destruct (valid_state_cases (state c)) as [[S | [S | [S | S]]] | S];
    pose proof S as S2; rewrite Es in S2.
  - rewrite !fsm_channel_init by assumption. unfold timing_fields. cbn. now rewrite Ep.
  - rewrite !fsm_channel_power_on by assumption. rewrite Et.
    destruct (_ >? _); cbn [fst]; unfold timing_fields; cbn; congruence.
  - rewrite !fsm_channel_spin_up by assumption. cbv zeta. cbn [fst]. rewrite Et.
    pose proof (timing_fields_sampling t (read_input i p) c) as T1.
    pose proof (timing_fields_sampling t (read_input j p2) c2) as T2.
    rewrite Eb, Ep, Es, Et in T1. rewrite <- T2 in T1.
    unfold timing_fields in *. injection T1 as A1 A2 A3.
    destruct (_ >? _); cbn [state time prev_sample_time set_state]; congruence.
  - rewrite !fsm_channel_running by assumption. cbv zeta. cbn [fst].
    rewrite !timing_fields_sampling. now rewrite Eb, Ep, Es, Et.
  - rewrite !fsm_channel_default by assumption. cbn [fst]. unfold timing_fields. congruence.
Qed.

Lemma timing_run (i j : nat) (l : list (Z * Z)) :
  forall l2 c c2 d d2,
    map fst l = map fst l2 ->
    timing_fields c = timing_fields c2 ->
    timing_fields (fst (channel_steps i l c d))
    = timing_fields (fst (channel_steps j l2 c2 d2)).
Proof.
  induction l as [| [t p] l IH]; intros [| [t2 p2] l2] c c2 d d2 Hl Hc;
    try discriminate; [exact Hc |].
  cbn [map fst] in Hl. injection Hl as <- Hl.
  rewrite !channel_steps_cons. apply IH; [exact Hl | now apply timing_step].
Qed.

(** X6. The channels stay in phase: after any run from start-up the two
    channels are in the same state, entered it at the same tick and have the
    same window start, whatever their inputs. *)
Theorem phase_alignment (i j : nat) (l : list (Z * (nat -> Z))) (ddrb : Z) ci cj :
  (i < NUM_CHANNELS)%nat -> (j < NUM_CHANNELS)%nat ->
  channel_at i (fsm_steps l (g_inst, ddrb)) = Some ci ->
  channel_at j (fsm_steps l (g_inst, ddrb)) = Some cj ->
  state ci = state cj /\ time ci = time cj /\ prev_sample_time ci = prev_sample_time cj.
Proof.
  unfold NUM_CHANNELS. intros Hi Hj Hci Hcj.
  destruct (fsm_steps_channel i l _ _ (g_inst_well_formed ddrb) (g_inst_channel i ddrb Hi))
    as (_ & Ci & _).
  destruct (fsm_steps_channel j l _ _ (g_inst_well_formed ddrb) (g_inst_channel j ddrb Hj))
    as (_ & Cj & _).
  rewrite Ci in Hci. rewrite Cj in Hcj. injection Hci as <-. injection Hcj as <-.
  assert (T : timing_fields (fst (channel_steps i (channel_inputs i l) channel_zero ddrb))
              = timing_fields (fst (channel_steps j (channel_inputs j l) channel_zero ddrb))).
  { apply timing_run; [| reflexivity].
    unfold channel_inputs. rewrite !map_map. reflexivity. }
  unfold timing_fields in T. cbn [snd]. injection T as T1 T2 T3. auto.
Qed.

(** *** The output before SpinUp *)

Lemma power_up_output_steps (i : nat) (b : bool) (l : list (Z * Z)) :
  forall c d,
    (state c = FSM_STATE_INIT \/ state c = FSM_STATE_POWER_ON -> driven_low i d = b) ->
    state (fst (channel_steps i l c d)) = FSM_STATE_INIT \/
    state (fst (channel_steps i l c d)) = FSM_STATE_POWER_ON ->
    driven_low i (snd (channel_steps i l c d)) = b.
Proof.
  induction l as [| [t p] l IH]; intros c d Hinv; [exact Hinv |].
  rewrite channel_steps_cons. apply IH.
  destruct (valid_state_cases (state c)) as [[E | [E | [E | E]]] | E].
  - rewrite fsm_channel_init by assumption. cbn [fst snd]. auto.
  - rewrite fsm_channel_power_on by assumption. destruct (_ >? _); cbn [fst snd].
    + cbn. intros [? | ?]; discriminate.
    + auto.
  - rewrite fsm_channel_spin_up by assumption. cbv zeta. cbn [fst snd].
    destruct (_ >? _); cbn [state set_state];
      rewrite ?(proj1 (spec_sampling_step_frame _ _ c)), ?E; intros [? | ?]; discriminate.
  - rewrite fsm_channel_running by assumption. cbv zeta. cbn [fst snd].
    rewrite (proj1 (spec_sampling_step_frame _ _ c)), E. intros [? | ?]; discriminate.
  - rewrite fsm_channel_default by assumption. cbn [fst snd].
    intros H. exfalso. apply E. unfold valid_state. tauto.
Qed.

(** X7. From start-up, as long as a channel is in Init or PowerOn its output
    pin is as the start-up found it: the firmware does not touch the pin
    before the channel enters SpinUp. *)
Theorem power_up_output (i : nat) (l : list (Z * (nat -> Z))) (ddrb : Z) c :
  (i < NUM_CHANNELS)%nat ->
  channel_at i (fsm_steps l (g_inst, ddrb)) = Some c ->
  state c = FSM_STATE_INIT \/ state c = FSM_STATE_POWER_ON ->
  driven_low i (snd (fsm_steps l (g_inst, ddrb))) = driven_low i ddrb.
Proof.
  unfold NUM_CHANNELS. intros Hi Hc Hs.
  destruct (fsm_steps_channel i l _ _ (g_inst_well_formed ddrb) (g_inst_channel i ddrb Hi))
    as (_ & C1 & D1).
  rewrite C1 in Hc. injection Hc as <-. rewrite D1. cbn [snd] in Hs |- *.
  now apply power_up_output_steps.
Qed.

(** *** The output in Running *)

Lemma in_window_run (i : nat) (l : list (Z * Z)) :
  forall c d,
    state c = FSM_STATE_RUNNING ->
    Forall (fun s => window_boundary (fst s) c = false) l ->
    state (fst (channel_steps i l c d)) = FSM_STATE_RUNNING /\
    prev_sample_time (fst (channel_steps i l c d)) = prev_sample_time c /\
    under_threshold (fst (channel_steps i l c d)) = under_threshold c.
Proof.
  induction l as [| [t p] l IH]; intros c d Hs Hall; [auto |].
  apply Forall_cons_iff in Hall. destruct Hall as (Hb & Hall). cbn [fst] in Hb.
  rewrite channel_steps_cons.
  set (c1 := fst (fsm_channel i t p c d)).
  destruct (sampling_step_verdict i t p c d (or_intror Hs)) as (_ & V).
  destruct (V Hb) as (V1 & V2). fold c1 in V1, V2.
  assert (S1 : state c1 = FSM_STATE_RUNNING).
  { unfold c1. rewrite fsm_channel_running by assumption. cbv zeta. cbn [fst].
    now rewrite (proj1 (spec_sampling_step_frame _ _ c)). }
  destruct (IH c1 (snd (fsm_channel i t p c d)) S1) as (K1 & K2 & K3).
  - eapply Forall_impl; [| exact Hall]. intros s.
    now rewrite (window_boundary_same_window (fst s) c c1 V2).
  - repeat split; congruence.
Qed.

(** X8. In Running the output holds the latched verdict for the whole
    window: after any passes made before the window boundary the verdict is
    the one latched at the start and the output is floated high exactly when
    it is true, whatever levels the input took in between. *)
Theorem verdict_held_within_window (i : nat) (l : list (Z * Z)) c (ddrb : Z) :
  state c = FSM_STATE_RUNNING ->
  l <> [] ->
  Forall (fun s => window_boundary (fst s) c = false) l ->
  state (fst (channel_steps i l c ddrb)) = FSM_STATE_RUNNING /\
  under_threshold (fst (channel_steps i l c ddrb)) = under_threshold c /\
  floating_high i (snd (channel_steps i l c ddrb)) = under_threshold c.
Proof.
  intros Hs Hl Hall.
  destruct (in_window_run i l c ddrb Hs Hall) as (K1 & _ & K3).
  split; [exact K1 |]. split; [exact K3 |].
  destruct (exists_last Hl) as (l0 & [t p] & ->).
  apply Forall_app in Hall. destruct Hall as (Hall0 & _).
  destruct (in_window_run i l0 c ddrb Hs Hall0) as (J1 & _ & _).
  rewrite channel_steps_app, channel_steps_cons in K3 |- *. cbn [channel_steps fst snd] in *.
  rewrite fsm_channel_running in K3 |- * by exact J1. cbv zeta in *. cbn [fst snd] in *.
  rewrite floating_high_driven_low. destruct (under_threshold (spec_sampling_step _ _ _));
    rewrite ?float_high_own, ?drive_low_own; now rewrite <- K3.
Qed.

(** X9. In Running the pass that closes a window sets the output from the
    toggles of that window: floated high when fewer than
    [TOGGLE_COUNT_THRESHOLD] level changes were read since the window began,
    driven low otherwise. *)
Theorem window_sets_output (i : nat) (l : list (Z * Z)) (tb pb : Z) c (ddrb : Z) :
  state c = FSM_STATE_RUNNING ->
  toggles c = 0 ->
  Forall (fun s => window_boundary (fst s) c = false) l ->
  window_boundary tb c = true ->
  level_changes (prev_input_state c)
    (map (fun s => read_input i (snd s)) (l ++ [(tb, pb)])) < 2 ^ 32 ->
  floating_high i (snd (channel_steps i (l ++ [(tb, pb)]) c ddrb))
  = (level_changes (prev_input_state c)
       (map (fun s => read_input i (snd s)) (l ++ [(tb, pb)])) <? TOGGLE_COUNT_THRESHOLD) /\
  driven_low i (snd (channel_steps i (l ++ [(tb, pb)]) c ddrb))
  = (TOGGLE_COUNT_THRESHOLD <=?
       level_changes (prev_input_state c)
         (map (fun s => read_input i (snd s)) (l ++ [(tb, pb)]))).
Proof.
  intros Hs Ht Hall Hb Hlt.
  destruct (window_verdict i l tb pb c ddrb (or_intror Hs) Ht Hall Hb Hlt) as (V & _).
  destruct (in_window_run i l c ddrb Hs Hall) as (J1 & _ & _).
  rewrite channel_steps_app, channel_steps_cons in V |- *. cbn [channel_steps fst snd] in *.
  rewrite fsm_channel_running in V |- * by exact J1. cbv zeta in *. cbn [fst snd] in *.
  rewrite floating_high_driven_low, (Z.leb_antisym _ TOGGLE_COUNT_THRESHOLD), <- V.
  destruct (under_threshold (spec_sampling_step _ _ _));
    rewrite ?float_high_own, ?drive_low_own; auto.
Qed.

(** *** Invariants of a run from start-up *)

Lemma start_up_invariant_step (i : nat) (t p : Z) c d :
  valid_state (state c) /\ 0 <= toggles c < 2 ^ 32 /\
  (state c = FSM_STATE_INIT \/ state c = FSM_STATE_POWER_ON ->
   toggles c = 0 /\ under_threshold c = false /\ prev_input_state c = false) ->
  let c' := fst (fsm_channel i t p c d) in
  valid_state (state c') /\ 0 <= toggles c' < 2 ^ 32 /\
  (state c' = FSM_STATE_INIT \/ state c' = FSM_STATE_POWER_ON ->
   toggles c' = 0 /\ under_threshold c' = false /\ prev_input_state c' = false).
Proof.
  intros (Hv & Ht & Hz). cbv zeta.
  split; [exact (proj2 (proj2 (fsm_next_forward _ _ (fsm_channel_next i t p c d))) Hv) |].
  destruct Hv as [E | [E | [E | E]]].
  - rewrite fsm_channel_init by assumption. cbn. split; [exact Ht |]. intros _. auto.
  - rewrite fsm_channel_power_on by assumption. destruct (_ >? _); cbn.
    + split; [exact Ht |]. intros [? | ?]; discriminate.
    + auto.
  - assert (Hs : sampling_state (state c)) by now left.
    pose proof (sampling_fields_step i t p c d Hs) as F.
    pose proof (sampling_state_step i t p c d Hs) as Hs'.
    unfold sampling_fields in F. injection F as _ _ _ F4. rewrite F4. split.
    + unfold spec_sampling_step, spec_count_toggle.
      destruct (Bool.eqb _ _); destruct (window_boundary _ _); cbn [toggles];
        try lia; unfold uint32; apply Z.mod_pos_bound; lia.
    + intros [E' | E']; destruct Hs' as [G | G]; rewrite G in E'; discriminate.
  - assert (Hs : sampling_state (state c)) by now right.
    pose proof (sampling_fields_step i t p c d Hs) as F.
    pose proof (sampling_state_step i t p c d Hs) as Hs'.
    unfold sampling_fields in F. injection F as _ _ _ F4. rewrite F4. split.
    + unfold spec_sampling_step, spec_count_toggle.
      destruct (Bool.eqb _ _); destruct (window_boundary _ _); cbn [toggles];
        try lia; unfold uint32; apply Z.mod_pos_bound; lia.
    + intros [E' | E']; destruct Hs' as [G | G]; rewrite G in E'; discriminate.
Qed.

(** X10. After any run from start-up every channel is in one of the four
    states, so the fault branch of the [switch] is not taken; its toggle
    count is within [uint32_t]; and up to the end of PowerOn the input has
    not been sampled: the count, the verdict and the remembered level are
    still zero. *)
Theorem start_up_invariant (i : nat) (l : list (Z * (nat -> Z))) (ddrb : Z) c :
  (i < NUM_CHANNELS)%nat ->
  channel_at i (fsm_steps l (g_inst, ddrb)) = Some c ->
  valid_state (state c) /\ 0 <= toggles c < 2 ^ 32 /\
  (state c = FSM_STATE_INIT \/ state c = FSM_STATE_POWER_ON ->
   toggles c = 0 /\ under_threshold c = false /\ prev_input_state c = false).
Proof.
  unfold NUM_CHANNELS. intros Hi Hc.
  destruct (fsm_steps_channel i l _ _ (g_inst_well_formed ddrb) (g_inst_channel i ddrb Hi))
    as (_ & C1 & _).
  rewrite C1 in Hc. injection Hc as <-. cbn [snd].
  generalize (channel_inputs i l). intros l0.
  assert (H0 : valid_state (state channel_zero) /\ 0 <= toggles channel_zero < 2 ^ 32 /\
               (state channel_zero = FSM_STATE_INIT \/ state channel_zero = FSM_STATE_POWER_ON ->
                toggles channel_zero = 0 /\ under_threshold channel_zero = false /\
                prev_input_state channel_zero = false)).
  { split; [now left |]. split; [cbn; lia | auto]. }
  revert H0. generalize channel_zero ddrb. clear.
  induction l0 as [| [t p] l0 IH]; intros c d H0; [exact H0 |].
  rewrite channel_steps_cons. apply IH. now apply start_up_invariant_step.
Qed.

(** *** The clock and the interrupt mask *)

Lemma irq_dispatch_config (h : timer0) :
  TCCR0A (irq_dispatch h) = TCCR0A h /\ TCCR0B (irq_dispatch h) = TCCR0B h /\
  TOIE0 (irq_dispatch h) = TOIE0 h /\ SREG_I (irq_dispatch h) = SREG_I h.
Proof. unfold irq_dispatch. destruct (_ && _); simpl; auto. Qed.

Lemma hw_tick_config (h : timer0) :
  TCCR0A (hw_tick h) = TCCR0A h /\ TCCR0B (hw_tick h) = TCCR0B h /\
  TOIE0 (hw_tick h) = TOIE0 h /\ SREG_I (hw_tick h) = SREG_I h.
Proof.
  unfold hw_tick. destruct (irq_dispatch_config (timer_clock h)) as (A & B & C & D).
  rewrite A, B, C, D. unfold timer_clock.
  destruct (timer_running h); [destruct (TCNT0 h =? 255) |]; simpl; auto.
Qed.

Lemma elapse_config (n : N) (h : timer0) :
  TCCR0A (elapse n h) = TCCR0A h /\ TCCR0B (elapse n h) = TCCR0B h /\
  TOIE0 (elapse n h) = TOIE0 h /\ SREG_I (elapse n h) = SREG_I h.
Proof.
  induction n as [| n IH] using N.peano_ind; [simpl; auto |].
  rewrite elapse_succ. destruct (hw_tick_config (elapse n h)) as (A & B & C & D).
  destruct IH as (A' & B' & C' & D'). repeat split; congruence.
Qed.

Lemma wait_config (w : world) :
  TCCR0A (hw (wait w)) = TCCR0A (hw w) /\ TCCR0B (hw (wait w)) = TCCR0B (hw w) /\
  TOIE0 (hw (wait w)) = TOIE0 (hw w) /\ SREG_I (hw (wait w)) = SREG_I (hw w).
Proof.
  unfold wait. destruct (pending w); simpl; [auto | apply elapse_config].
Qed.

Lemma jiffies_loop_config (fuel : nat) :
  forall w r, jiffies_loop fuel w = Some r ->
    TCCR0A (hw (snd r)) = TCCR0A (hw w) /\ TCCR0B (hw (snd r)) = TCCR0B (hw w) /\
    TOIE0 (hw (snd r)) = TOIE0 (hw w).
Proof.
  induction fuel as [| fuel IH]; intros w r; simpl; [discriminate |].
  destruct (wait_config w) as (A1 & B1 & C1 & _).
  destruct (wait_config (wait w)) as (A2 & B2 & C2 & _).
  destruct (wait_config (wait (wait w))) as (A3 & B3 & C3 & _).
  destruct (Bool.eqb _ _).
  - intros [= <-]. simpl. repeat split; congruence.
  - intros L. destruct (IH _ _ L) as (A & B & C). repeat split; congruence.
Qed.

(** X11. A call of [jiffies()] gives the hardware back as it found it: the
    interrupt enable is the caller's again, the timer configuration is
    untouched, and the accumulator is unchanged or, when the call was made
    with interrupts enabled, advanced by 256 once, by the overflow interrupt
    served when interrupts are enabled again. Called with interrupts masked
    it leaves the accumulator and a pending overflow flag alone. *)
Theorem jiffies_frame (fuel : nat) (w : world) :
  (2 <= fuel)%nat ->
  exists ret w',
    jiffies fuel w = Some (ret, w') /\
    SREG_I (hw w') = SREG_I (hw w) /\
    TCCR0A (hw w') = TCCR0A (hw w) /\ TCCR0B (hw w') = TCCR0B (hw w) /\
    TOIE0 (hw w') = TOIE0 (hw w) /\
    (timer_ticks_hi (hw w') = timer_ticks_hi (hw w) \/
     (SREG_I (hw w) = true /\
      timer_ticks_hi (hw w') = jiffies_wrap (timer_ticks_hi (hw w) + 256))) /\
    (SREG_I (hw w) = false ->
     timer_ticks_hi (hw w') = timer_ticks_hi (hw w) /\
     (TOV0 (hw w) = true -> TOV0 (hw w') = true)).
Proof.
  intros Hf. unfold jiffies, spin_lock_irqsave.
  set (w0 := mkWorld _ (pending w) (elapsed w)).
  destruct (jiffies_loop_total fuel w0 Hf eq_refl) as (fb & tcnt & w3 & L & L2 & HI & Hhi).
  rewrite L. destruct (jiffies_loop_config _ _ _ L) as (A & B & C).
  cbn [snd] in A, B, C. cbn [hw w0 TCCR0A TCCR0B TOIE0 timer_ticks_hi] in A, B, C, Hhi.
  assert (Hflag : TOV0 (hw w) = true -> TOV0 (hw w3) = true).
  { intros F. clear - L2 F. cbn [jiffies_loop] in L2.
    assert (M : forall v, SREG_I (hw v) = false -> TOV0 (hw v) = true ->
                          SREG_I (hw (wait v)) = false /\ TOV0 (hw (wait v)) = true).
    { intros v I T. destruct (wait_masked v I) as (I' & _ & T'). auto. }
    destruct (M w0 eq_refl F) as (I1 & T1). destruct (M _ I1 T1) as (I2 & T2).
    destruct (M _ I2 T2) as (I3 & T3). rewrite T1, T3 in L2. cbn in L2.
    injection L2 as _ _ <-. exact T3. }
  do 2 eexists. split; [reflexivity |]. cbn [hw].
  unfold spin_unlock_irqrestore.
  match goal with |- context [irq_dispatch ?x] => set (hx := x) end.
  destruct (irq_dispatch_config hx) as (A' & B' & C' & D').
  rewrite A', B', C', D'. cbn [hx TCCR0A TCCR0B TOIE0 SREG_I].
  split; [reflexivity |]. split; [exact A |]. split; [exact B |]. split; [exact C |].
  split.
  - unfold irq_dispatch. destruct (SREG_I hx && TOIE0 hx && TOV0 hx) eqn:G.
    + right. cbn [hx SREG_I] in G. destruct (SREG_I (hw w)); [| discriminate].
      split; [reflexivity |]. cbn. now rewrite Hhi.
    + left. cbn. exact Hhi.
  - intros I. unfold irq_dispatch. cbn [hx SREG_I]. rewrite I. cbn.
    split; [exact Hhi | exact Hflag].
Qed.

(** X12. Critical sections nest: an inner [spin_lock_irqsave] /
    [spin_unlock_irqrestore] pair inside an outer one leaves interrupts
    masked and the accumulator untouched, however long the sections last;
    the outer unlock gives the caller's interrupt enable back. *)
Theorem irqsave_nests (h : timer0) (n m k : N) :
  let h1 := snd (spin_lock_irqsave h) in
  let f2 := fst (spin_lock_irqsave (elapse n h1)) in
  let h2 := snd (spin_lock_irqsave (elapse n h1)) in
  let h3 := spin_unlock_irqrestore f2 (elapse m h2) in
  let h4 := spin_unlock_irqrestore (fst (spin_lock_irqsave h)) (elapse k h3) in
  f2 = false /\ SREG_I h3 = false /\ timer_ticks_hi h3 = timer_ticks_hi h /\
  SREG_I h4 = SREG_I h.
Proof.
  cbv zeta. unfold spin_lock_irqsave. cbn [fst snd].
  set (h1 := mkTimer0 _ _ _ _ _ false (timer_ticks_hi h)).
  destruct (elapse_masked n h1 eq_refl) as (I1 & H1 & _).
  set (h2 := mkTimer0 _ _ _ _ _ false (timer_ticks_hi (elapse n h1))).
  destruct (elapse_masked m h2 eq_refl) as (I2 & H2 & _).
  split; [exact I1 |].
  unfold spin_unlock_irqrestore.
  assert (E3 : forall x, irq_dispatch
                 (mkTimer0 (TCCR0A x) (TCCR0B x) (TCNT0 x) (TOV0 x) (TOIE0 x) false
                    (timer_ticks_hi x))
               = mkTimer0 (TCCR0A x) (TCCR0B x) (TCNT0 x) (TOV0 x) (TOIE0 x) false
                   (timer_ticks_hi x)) by reflexivity.
  rewrite I1, E3. cbn [SREG_I timer_ticks_hi].
  split; [reflexivity |]. split; [now rewrite H2 |].
  match goal with |- SREG_I (irq_dispatch ?x) = _ =>
    destruct (irq_dispatch_config x) as (_ & _ & _ & D); rewrite D end.
  reflexivity.
Qed.

(** X13. The overflow handler keeps the books: [n] counter periods after
    [jiffies_init], made from any hardware state with interrupts enabled,
    the counter holds [n mod 256], the accumulator holds 256 times the
    number of completed rollovers (in [jiffies_t]) and no overflow is
    pending; what the counter, the flag and the accumulator held before
    [jiffies_init] is gone. *)
Theorem overflow_accounting (h0 : timer0) (n : N) :
  SREG_I h0 = true ->
  let h := elapse n (jiffies_init h0) in
  TCNT0 h = Z.of_N n mod 256 /\
  timer_ticks_hi h = jiffies_wrap (256 * (Z.of_N n / 256)) /\
  TOV0 h = false /\ SREG_I h = true.
Proof.
  intros HI. cbv zeta.
  destruct (elapse_config n (jiffies_init h0)) as (_ & B & C & D).
  pose proof (jiffies_init_enabled h0 HI) as (I0 & E0 & R0 & V0 & _).
  induction n as [| n IH] using N.peano_ind.
  - unfold jiffies_init, spin_lock_irqsave, spin_unlock_irqrestore, irq_dispatch.
    cbn. rewrite HI. cbn. repeat split; reflexivity.
  - destruct (elapse_config n (jiffies_init h0)) as (_ & B' & C' & D').
    destruct (IH B' C' D') as (K1 & K2 & K3 & K4). clear IH.
    rewrite elapse_succ, N2Z.inj_succ.
    set (x := Z.of_N n) in *. assert (Hx : 0 <= x) by (unfold x; lia).
    set (h := elapse n (jiffies_init h0)) in *.
    unfold hw_tick, timer_clock, timer_running. rewrite B'.
    unfold timer_running in R0. rewrite R0, K1.
    clearbody x h.
    pose proof (Z.div_mod x 256 ltac:(lia)) as Hd.
    pose proof (Z.mod_pos_bound x 256 ltac:(lia)) as Hm.
    pose proof (Z.div_mod (Z.succ x) 256 ltac:(lia)) as Hd'.
    pose proof (Z.mod_pos_bound (Z.succ x) 256 ltac:(lia)) as Hm'.
    destruct (Z.eqb_spec (x mod 256) 255) as [E | E]; unfold irq_dispatch;
      cbn -[Z.mul Z.div Z.modulo Z.add].
    + rewrite K4, C', E0. cbn -[Z.mul Z.div Z.modulo Z.add].
      rewrite K2, jiffies_wrap_add_l.
      repeat split; try reflexivity; [symmetry; lia | f_equal; lia].
    + rewrite K3, andb_false_r. cbn -[Z.mul Z.div Z.modulo Z.add]. rewrite K2.
      repeat split; try assumption; [lia | f_equal; lia].
Qed.

Lemma wait_pending_inv (H c E0 : Z) (w : world) :
  pending_inv H c E0 w ->
  pending_inv H c E0 (wait w) /\ elapsed w <= elapsed (wait w).
Proof.
  intros Hinv. unfold wait. destruct (pending w) as [| d s] eqn:Ep.
  - split; [assumption | lia].
  - destruct Hinv as (HI & HE & HR & HV & HH & Hc & Ht & HC & Hs).
    rewrite Ep, schedule_ticks_cons in Hs. pose proof (schedule_ticks_nonneg s) as Hn.
    rewrite (elapse_masked_counter d (hw w) HI HR ltac:(lia)).
    unfold pending_inv, timer_running. cbn [hw pending elapsed TCCR0B TCNT0 TOV0 TOIE0
                                             SREG_I timer_ticks_hi].
    unfold timer_running in HR. split; [| lia].
    repeat split; try assumption; try lia.
    + now rewrite HV.
    + rewrite HC, Z.mod_small by lia. lia.
Qed.

(** X14. [jiffies()] may also be called with interrupts already masked.
    With the counter and the accumulator consistent with the time gone by, a
    pending overflow counting for 256, and no further wrap of the counter
    hidden behind the pending flag during the call, the call returns the
    tick count of an instant of the call, leaves interrupts masked and the
    accumulator untouched, and the hardware is consistent again. *)
Theorem jiffies_masked_call (fuel : nat) (w : world) :
  (2 <= fuel)%nat ->
  SREG_I (hw w) = false ->
  clock_consistent (hw w) (elapsed w) ->
  (if TOV0 (hw w) then TCNT0 (hw w) else 0) + schedule_ticks (pending w) < 256 ->
  exists ret w',
    jiffies fuel w = Some (ret, w') /\
    (exists u, elapsed w <= u <= elapsed w' /\ ret = jiffies_wrap u) /\
    SREG_I (hw w') = false /\
    timer_ticks_hi (hw w') = timer_ticks_hi (hw w) /\
    clock_consistent (hw w') (elapsed w').
Proof.
  intros Hf HI (HR & HE & HC & HT) Hs.
  unfold jiffies, spin_lock_irqsave. rewrite HI.
  set (w0 := mkWorld _ (pending w) (elapsed w)).
  assert (Hunlock : forall x, SREG_I x = false ->
             spin_unlock_irqrestore false x = x).
  { intros x Ix. unfold spin_unlock_irqrestore, irq_dispatch. cbn.
    destruct x; cbn in *. now subst. }
  destruct (TOV0 (hw w)) eqn:HV.
  - (* an overflow is pending at the call *)
    assert (Q0 : pending_inv (timer_ticks_hi (hw w)) (TCNT0 (hw w)) (elapsed w) w0).
    { unfold pending_inv, w0, timer_running.
      cbn [hw pending elapsed TCCR0B TCNT0 TOV0 TOIE0 SREG_I timer_ticks_hi].
      unfold timer_running in HR.
      repeat split; try assumption; try lia. }
    destruct (wait_pending_inv _ _ _ _ Q0) as (Q1 & L1).
    destruct (wait_pending_inv _ _ _ _ Q1) as (Q2 & L2).
    destruct (wait_pending_inv _ _ _ _ Q2) as (Q3 & L3).
    destruct fuel as [| fuel]; [lia |]. cbn [jiffies_loop].
    destruct Q1 as (_ & _ & _ & V1 & _).
    destruct Q2 as (_ & _ & _ & _ & _ & _ & _ & C2 & S2).
    destruct Q3 as (I3 & E3 & R3 & V3 & H3 & _ & _ & C3 & S3).
    rewrite V1, V3. cbn [Bool.eqb].
    pose proof (schedule_ticks_nonneg (pending (wait (wait w0)))) as N2.
    pose proof (schedule_ticks_nonneg (pending (wait (wait (wait w0))))) as N3.
    set (w2 := wait (wait w0)) in *. set (w3 := wait w2) in *.
    cbn [elapsed w0] in L1.
    do 2 eexists. split; [reflexivity |]. cbn [hw pending elapsed].
    rewrite (Hunlock _ I3).
    split; [| split; [exact I3 | split; [exact H3 |]]].
    + exists (elapsed w2). split; [lia |].
      rewrite jiffies_wrap_add_l, H3, C2.
      pose proof (jiffies_wrap_congr _ _ (elapsed w2 - elapsed w) HT) as Eu.
      replace (elapsed w + (elapsed w2 - elapsed w)) with (elapsed w2) in Eu by lia.
      rewrite <- Eu. f_equal. lia.
    + unfold clock_consistent. rewrite V3, H3, C3.
      repeat split; try assumption; try lia.
      pose proof (jiffies_wrap_congr _ _ (elapsed w3 - elapsed w) HT) as Eu.
      replace (elapsed w + (elapsed w3 - elapsed w)) with (elapsed w3) in Eu by lia.
      rewrite <- Eu. f_equal. lia.
  - (* no overflow is pending at the call *)
    assert (I0 : masked_inv (timer_ticks_hi (hw w)) (TCNT0 (hw w)) (elapsed w) w0).
    { unfold masked_inv, w0, timer_running.
      cbn [hw pending elapsed TCCR0B TCNT0 TOV0 TOIE0 SREG_I timer_ticks_hi].
      unfold timer_running in HR.
      rewrite Z.sub_diag, Z.add_0_r, Z.mod_small by lia.
      repeat split; try assumption; try lia;
        try (symmetry; apply Z.leb_gt; lia). }
    destruct (jiffies_loop_consistent fuel _ _ _ _ Hf I0)
      as (fb & tcnt & w3 & L & I3 & u & Hu & Hsum).
    rewrite L. cbn [elapsed w0] in Hu.
    destruct I3 as (JI & JE & JR & JH & _ & Jt & Js & JC & JV).
    pose proof (schedule_ticks_nonneg (pending w3)) as Hn.
    do 2 eexists. split; [reflexivity |]. cbn [hw pending elapsed].
    rewrite (Hunlock _ JI).
    split; [| split; [exact JI | split; [exact JH |]]].
    + exists u. split; [lia |]. rewrite JH.
      pose proof (jiffies_wrap_congr _ _ (u - elapsed w) HT) as Eu.
      replace (elapsed w + (u - elapsed w)) with u in Eu by lia.
      rewrite <- Eu.
      destruct fb; [rewrite jiffies_wrap_add_l |]; f_equal; lia.
    + unfold clock_consistent. rewrite JV, JH, JC.
      split; [exact JR |]. split; [exact JE |].
      split; [apply Z.mod_pos_bound; lia |].
      pose proof (jiffies_wrap_congr _ _ (elapsed w3 - elapsed w) HT) as Eu.
      replace (elapsed w + (elapsed w3 - elapsed w)) with (elapsed w3) in Eu by lia.
      rewrite <- Eu. f_equal.
      destruct (Z.leb_spec 256 (TCNT0 (hw w) + (elapsed w3 - elapsed w))) as [G | G].
      * replace (TCNT0 (hw w) + (elapsed w3 - elapsed w))
          with (TCNT0 (hw w) + (elapsed w3 - elapsed w) - 256 + 1 * 256) at 1 by lia.
        rewrite Z.mod_add, Z.mod_small by lia. lia.
      * rewrite Z.mod_small by lia. lia.
Qed.

(** *** The main program *)

Lemma jiffies_calls_total (fuel : nat) (calls : list (N * list N)) :
  (2 <= fuel)%nat ->
  forall h t, exists res,
    jiffies_calls fuel h t calls = Some res /\ length res = length calls.
Proof.
  intros Hf. induction calls as [| [before inside] rest IH]; intros h t.
  - exists []. now split.
  - cbn [jiffies_calls].
    destruct (jiffies_total fuel (mkWorld (elapse before h) inside (t + Z.of_N before)) Hf)
      as (ret & w' & J).
    rewrite J. destruct (IH (hw w') (elapsed w')) as (res & R & Hlen). rewrite R.
    eexists. split; [reflexivity |]. cbn [length]. now rewrite Hlen.
Qed.

Lemma main_loop_calls (fuel : nat) (env : list (N * list N * (nat -> Z))) :
  forall h t st,
    main_loop fuel h t env st
    = match jiffies_calls fuel h t (map fst env) with
      | Some res => Some (fsm_steps (combine (returned res) (map snd env)) st)
      | None => None
      end.
Proof.
  induction env as [| [[before inside] pinb] env IH]; intros h t st; [reflexivity |].
  cbn [main_loop map fst snd jiffies_calls]. unfold fsm_run.
  destruct (jiffies fuel _) as [[ret w'] |]; [| reflexivity].
  rewrite IH. destruct (jiffies_calls fuel (hw w') (elapsed w') (map fst env)); reflexivity.
Qed.

(** X15. [main] always completes its passes (the clock read never needs
    more than two rounds of its loop), and what it does to the channels is
    the channel loop run on the successive values of [jiffies()]: the state
    it reaches is that of [fsm_steps] on the values returned by the session
    of the clock, paired with the port values of the passes. *)
Theorem main_runs_fsm_on_clock (fuel : nat) (h : timer0) (ddrb : Z)
    (env : list (N * list N * (nat -> Z))) :
  (2 <= fuel)%nat ->
  exists res,
    jiffies_session fuel (sei h) (map fst env) = Some res /\
    length res = length env /\
    main fuel h ddrb env
    = Some (fsm_steps (combine (returned res) (map snd env)) (g_inst, ddrb)).
Proof.
  intros Hf. unfold main, jiffies_session. rewrite main_loop_calls.
  destruct (jiffies_calls_total fuel (map fst env) Hf (jiffies_init (sei h)) 0)
    as (res & R & Hlen).
  exists res. rewrite R. rewrite length_map in Hlen. auto.
Qed.

Lemma linearized_bounded (B : Z) (res : list (Z * Z * Z)) :
  B < 2 ^ jiffies_bits ->
  Forall (fun r => snd r <= B) res ->
  forall t, 0 <= t -> linearized t res ->
  Forall (fun v => 0 <= v <= B) (returned res).
Proof.
  intros HB Hall. induction Hall as [| [[t1 ret] t2] rest Hr Hrest IH]; intros t Ht Hlin.
  - constructor.
  - destruct Hlin as (H1 & (u & Hu & Hret) & Hlin). simpl in Hr.
    rewrite jiffies_wrap_small in Hret by lia. subst ret.
    cbn [returned map fst snd]. fold (returned rest).
    constructor; [lia | apply (IH t2); [lia | assumption]].
Qed.

Lemma map_fst_combine {A B : Type} (a : list A) :
  forall b : list B, length a = length b -> map fst (combine a b) = a.
Proof.
  induction a as [| x a IH]; intros [| y b] Hl; try discriminate; [reflexivity |].
  cbn. f_equal. apply IH. now injection Hl.
Qed.

(** A channel that reaches Running on clock values that do not decrease has
    seen a clock value above [SPIN_UP_JIFFIES]. *)
Lemma running_needs_time (i : nat) (l : list (Z * Z)) :
  StronglySorted Z.le (map fst l) ->
  Forall (fun s => 0 <= fst s < 2 ^ jiffies_bits) l ->
  forall c d,
    (state c = FSM_STATE_SPIN_UP -> 0 <= time c /\ Forall (fun s => time c <= fst s) l) ->
    state c <> FSM_STATE_RUNNING ->
    state (fst (channel_steps i l c d)) = FSM_STATE_RUNNING ->
    exists s, In s l /\ SPIN_UP_JIFFIES < fst s.
Proof.
  induction l as [| [t p] l IH]; intros Hsort Hrange c d Hspin Hnr Hrun.
  - contradiction.
  - cbn [map fst] in Hsort. apply StronglySorted_inv in Hsort. destruct Hsort as (Hsort & Hle).
    apply Forall_cons_iff in Hrange. destruct Hrange as (Ht & Hrange). cbn [fst] in Ht.
    assert (Hlater : Forall (fun s : Z * Z => t <= fst s) l).
    { apply Forall_forall. intros s Hin. rewrite Forall_forall in Hle.
      apply Hle. now apply in_map. }
    rewrite channel_steps_cons in Hrun.
    assert (Hrest : forall c' d',
               (state c' = FSM_STATE_SPIN_UP ->
                0 <= time c' /\ Forall (fun s => time c' <= fst s) l) ->
               state c' <> FSM_STATE_RUNNING ->
               state (fst (channel_steps i l c' d')) = FSM_STATE_RUNNING ->
               exists s, In s ((t, p) :: l) /\ SPIN_UP_JIFFIES < fst s).
    { intros c' d' A B C. destruct (IH Hsort Hrange c' d' A B C) as (s & Hin & Hs).
      exists s. split; [now right | exact Hs]. }
    destruct (valid_state_cases (state c)) as [[E | [E | [E | E]]] | E].
    + rewrite fsm_channel_init in Hrun by assumption. cbn [fst snd] in Hrun.
      eapply Hrest; [| | exact Hrun]; cbn; [discriminate | discriminate].
    + rewrite fsm_channel_power_on in Hrun by assumption.
      destruct (_ >? _); cbn [fst snd] in Hrun.
      * eapply Hrest; [| | exact Hrun]; cbn; [| discriminate].
        intros _. split; [lia | exact Hlater].
      * eapply Hrest; [| | exact Hrun]; [rewrite E; discriminate | exact Hnr].
    + destruct (Hspin E) as (H0 & Hall).
      apply Forall_cons_iff in Hall. destruct Hall as (Hct & Hall). cbn [fst] in Hct.
      rewrite fsm_channel_spin_up in Hrun by assumption. cbv zeta in Hrun.
      cbn [fst snd] in Hrun.
      destruct (jiffies_sub t (time c) >? SPIN_UP_JIFFIES) eqn:G.
      * exists (t, p). split; [now left |]. cbn [fst].
        rewrite Z.gtb_ltb in G. apply Z.ltb_lt in G.
        unfold jiffies_sub in G. rewrite jiffies_wrap_small in G by lia. lia.
      * eapply Hrest; [| | exact Hrun];
          rewrite ?(proj1 (spec_sampling_step_frame _ _ c)),
            ?(proj2 (spec_sampling_step_frame _ _ c)), ?E; [auto | discriminate].
    + contradiction.
    + rewrite fsm_channel_default in Hrun by assumption. cbn [fst snd] in Hrun.
      eapply Hrest; [| exact Hnr | exact Hrun].
      intros E'. exfalso. apply E. unfold valid_state. auto.
Qed.

Lemma sei_enabled (h : timer0) : SREG_I (sei h) = true.
Proof.
  unfold sei. match goal with |- SREG_I (irq_dispatch ?x) = _ =>
    destruct (irq_dispatch_config x) as (_ & _ & _ & D); rewrite D end.
  reflexivity.
Qed.

(** X16. In [main], with fewer than 256 counter periods inside each clock
    read and before the tick count passes the range of [jiffies_t], a
    channel is found in Running only when more than [SPIN_UP_JIFFIES]
    counter periods have really gone by since the start: the verdict does
    not drive the output earlier. *)
Theorem running_not_before_spin_up_time (fuel : nat) (h : timer0) (ddrb : Z)
    (env : list (N * list N * (nat -> Z))) (i : nat) st c :
  (2 <= fuel)%nat ->
  (i < NUM_CHANNELS)%nat ->
  Forall (fun e => schedule_ticks (snd (fst e)) < 256) env ->
  session_ticks (map fst env) < 2 ^ jiffies_bits ->
  main fuel h ddrb env = Some st ->
  channel_at i st = Some c ->
  state c = FSM_STATE_RUNNING ->
  SPIN_UP_JIFFIES < session_ticks (map fst env).
Proof.
  unfold NUM_CHANNELS. intros Hf Hi Hall HT Hmain Hc Hs.
  assert (Hall' : Forall (fun c : N * list N => schedule_ticks (snd c) < 256) (map fst env)).
  { apply Forall_map. exact Hall. }
  unfold main in Hmain. rewrite main_loop_calls in Hmain.
  destruct (jiffies_calls_linear fuel (map fst env) Hf Hall' _ _
              (jiffies_init_enabled (sei h) (sei_enabled h)))
    as (res & R & Hlen & Hlin & Hb).
  rewrite R in Hmain. injection Hmain as <-.
  cbn [Z.add] in Hb.
  destruct (linearized_sorted _ res HT Hb 0 ltac:(lia) Hlin) as (_ & Hsorted).
  pose proof (linearized_bounded _ res HT Hb 0 ltac:(lia) Hlin) as Hbounded.
  set (L := combine (returned res) (map snd env)) in *.
  assert (HL : map fst L = returned res).
  { unfold L. apply map_fst_combine. unfold returned. now rewrite !length_map in *. }
  destruct (fsm_steps_channel i L _ _ (g_inst_well_formed ddrb) (g_inst_channel i ddrb Hi))
    as (_ & C1 & _).
  rewrite C1 in Hc. injection Hc as <-. cbn [snd] in Hs.
  assert (HM : map fst (channel_inputs i L) = returned res).
  { unfold channel_inputs. rewrite map_map. cbn [fst]. exact HL. }
  destruct (running_needs_time i (channel_inputs i L)) with (c := channel_zero) (d := ddrb)
    as (s & Hin & Hgt).
  - now rewrite HM.
  - apply Forall_forall. intros s Hin.
    assert (Hv : In (fst s) (returned res)) by (rewrite <- HM; now apply in_map).
    rewrite Forall_forall in Hbounded. specialize (Hbounded _ Hv). cbn beta in Hbounded. lia.
  - discriminate.
  - discriminate.
  - exact Hs.
  - assert (Hv : In (fst s) (returned res)) by (rewrite <- HM; now apply in_map).
    rewrite Forall_forall in Hbounded. specialize (Hbounded _ Hv). cbn beta in Hbounded. lia.
Qed.

Lemma testbit_own_index (n : Z) : 0 <= n -> Z.testbit n n = false.
Proof.
  intros Hn. destruct (Z.eq_dec n 0) as [-> | Hz]; [reflexivity |].
  apply Z.bits_above_log2; [lia |].
  apply Z.log2_lt_pow2; [lia |]. apply Z.pow_gt_lin_r; lia.
Qed.

(** X17. The first statement of [main], [MCUCR |= PUD], ORs the bit number
    [PUD] itself into the register: it sets the bits that are set in the
    number [PUD] and, whatever the bit number is, never changes bit [PUD]
    of [MCUCR]. *)
Theorem pull_up_disable_bit (PUD mcucr : Z) :
  0 <= PUD < 8 ->
  Z.testbit (main_pull_up_disable PUD mcucr) PUD = Z.testbit mcucr PUD /\
  forall n, 0 <= n < 8 ->
    Z.testbit (main_pull_up_disable PUD mcucr) n = Z.testbit mcucr n || Z.testbit PUD n.
Proof.
  intros HP.
  assert (E : forall n, 0 <= n < 8 ->
            Z.testbit (main_pull_up_disable PUD mcucr) n
            = Z.testbit mcucr n || Z.testbit PUD n).
  { intros n Hn. unfold main_pull_up_disable. now rewrite uint8_bit, Z.lor_spec by lia. }
  split; [| exact E].
  rewrite E by lia. rewrite testbit_own_index by lia. apply orb_false_r.
Qed.

End Firmware.

(** ** The firmware as built

    Modelled from the spec: the declarations of [jiffies.h]. The tick type
    [jiffies_t] is a wide unsigned integer, 32 bits in the instances below;
    [jiffies_init] clocks the timer at [F_CPU / 64] with [F_CPU] of 8 MHz,
    8 microseconds per tick, so [JIFFIES_PER_SECOND] is 125000. *)

(** *** The clock on concrete schedules *)

(** The counter stands at 255 when [jiffies()] is called and wraps between
    the read of [TCNT0] and the second read of the flag: the loop goes round
    once more and the call returns 256. *)
Example jiffies_overflow_during_read :
  jiffies 32 2 (mkWorld (mkTimer0 0 3 255 false true true 0) [0; 0; 1]%N 255)
  = Some (256, mkWorld (mkTimer0 0 3 0 false true true 256) [] 256).
Proof. vm_compute. reflexivity. Qed.

(** The same with the wrap between the first read of the flag and the read
    of [TCNT0]. *)
Example jiffies_overflow_before_counter_read :
  jiffies 32 2 (mkWorld (mkTimer0 0 3 255 false true true 0) [0; 1; 0]%N 255)
  = Some (256, mkWorld (mkTimer0 0 3 0 false true true 256) [] 256).
Proof. vm_compute. reflexivity. Qed.

(** Were 256 counter periods or more to go by inside one critical section, a
    second wrap would be lost behind the pending flag: here the first call
    returns 266 and the next one 260. *)
Example jiffies_two_wraps_in_one_call :
  jiffies_session 32 2 (mkTimer0 0 0 0 false false true 0)
    [(0%N, [256; 10; 250]%N); (0%N, [])]
  = Some [(0, 266, 516); (516, 260, 516)].
Proof. vm_compute. reflexivity. Qed.

Lemma jiffies_compensated_witness :
  (2 <= 2)%nat /\
  let w := mkWorld (mkTimer0 0 3 255 false true true 0) [0; 0; 1]%N 255 in
  let w0 := mkWorld (snd (spin_lock_irqsave (hw w))) (pending w) (elapsed w) in
  exists v : world,
    (v = w0 \/
     (v = wait 32 (wait 32 (wait 32 w0)) /\
      TOV0 (hw (wait 32 w0)) <> TOV0 (hw (wait 32 (wait 32 (wait 32 w0)))))) /\
    let tifr_before := TOV0 (hw (wait 32 v)) in
    let tcnt := TCNT0 (hw (wait 32 (wait 32 v))) in
    let w3 := wait 32 (wait 32 (wait 32 v)) in
    let tifr_after := TOV0 (hw w3) in
    tifr_before = tifr_after /\
    TOV0 (hw (wait 32 (wait 32 v))) = tifr_before /\
    timer_ticks_hi (hw w3) = timer_ticks_hi (hw w) /\
    jiffies_loop 32 2 w0 = Some (tifr_before, tcnt, w3) /\
    jiffies 32 2 w
    = Some (jiffies_wrap 32
              (timer_ticks_hi (hw w) + tcnt + (if tifr_before then 256 else 0)),
            mkWorld (spin_unlock_irqrestore 32 (SREG_I (hw w)) (hw w3))
              (pending w3) (elapsed w3)).
Proof.
  split; [lia |].
  apply (jiffies_compensated 32 2
           (mkWorld (mkTimer0 0 3 255 false true true 0) [0; 0; 1]%N 255)).
  lia.
Defined.

(** The call of the witness round by round: the first round reads the flag
    clear, the counter at 255 and the flag set, and is repeated; the second
    reads the flag set, the counter at 0 and the flag set: the call returns
    0 + 0 + 256. A call during which the counter does not wrap reads the
    flag clear twice and returns accumulator plus counter. *)
Example jiffies_rounds_of_witness :
  let w0 := mkWorld (mkTimer0 0 3 255 false true false 0) [0; 0; 1]%N 255 in
  let v := wait 32 (wait 32 (wait 32 w0)) in
  (TOV0 (hw (wait 32 w0)), TCNT0 (hw (wait 32 (wait 32 w0))), TOV0 (hw v))
  = (false, 255, true) /\
  (TOV0 (hw (wait 32 v)), TCNT0 (hw (wait 32 (wait 32 v))),
   TOV0 (hw (wait 32 (wait 32 (wait 32 v)))))
  = (true, 0, true) /\
  jiffies 32 2 (mkWorld (mkTimer0 0 3 255 false true true 0) [0; 0; 1]%N 255)
  = Some (256, mkWorld (mkTimer0 0 3 0 false true true 256) [] 256) /\
  jiffies 32 2 (mkWorld (mkTimer0 0 3 17 false true true 512) [1; 2; 3]%N 529)
  = Some (532, mkWorld (mkTimer0 0 3 23 false true true 512) [] 535).
Proof. vm_compute. repeat split; reflexivity. Qed.

Lemma jiffies_monotonic_until_wrap_witness :
  (2 <= 2)%nat /\
  SREG_I (mkTimer0 0 0 0 false false true 0) = true /\
  Forall (fun c : N * list N => schedule_ticks (snd c) < 256)
    [(255%N, [0; 0; 1]%N); (10%N, [])] /\
  exists res,
    jiffies_session 32 2 (mkTimer0 0 0 0 false false true 0)
      [(255%N, [0; 0; 1]%N); (10%N, [])] = Some res /\
    length res = 2%nat /\
    linearized 32 0 res /\
    (session_ticks [(255%N, [0; 0; 1]%N); (10%N, [])] < 2 ^ 32 ->
     StronglySorted Z.le (returned res)).
Proof.
  assert (F : Forall (fun c : N * list N => schedule_ticks (snd c) < 256)
                [(255%N, [0; 0; 1]%N); (10%N, [])])
    by (repeat constructor).
  split; [lia |]. split; [reflexivity |]. split; [exact F |].
  exact (jiffies_monotonic_until_wrap 32 2 (mkTimer0 0 0 0 false false true 0)
           [(255%N, [0; 0; 1]%N); (10%N, [])] ltac:(lia) eq_refl F).
Defined.

(** The session of the witness returns 256, then 266. *)
Example jiffies_session_values :
  jiffies_session 32 2 (mkTimer0 0 0 0 false false true 0)
    [(255%N, [0; 0; 1]%N); (10%N, [])]
  = Some [(255, 256, 256); (266, 266, 266)].
Proof. vm_compute. reflexivity. Qed.

(** C2, counterexample. A call made 4294967295 counter periods after
    [jiffies_init] returns 4294967295; the call made one period later
    returns 0: the returned values are not non-decreasing. *)
Lemma jiffies_decreases_at_wrap :
  exists res,
    jiffies_session 32 2 (mkTimer0 0 0 0 false false true 0)
      [(4294967295%N, []); (1%N, [])] = Some res /\
    returned res = [4294967295; 0] /\
    ~ StronglySorted Z.le (returned res).
Proof.
  destruct (jiffies_wraps_around 32 2 (mkTimer0 0 0 0 false false true 0)
              ltac:(lia) eq_refl ltac:(lia)) as (res & R & V).
  change (Z.to_N (2 ^ 32 - 1)) with 4294967295%N in R.
  change (2 ^ 32 - 1) with 4294967295 in V.
  exists res. split; [exact R |]. split; [exact V |].
  rewrite V. intros S. inversion S as [| a l _ F]. subst.
  inversion F as [| b l' Hle _]. subst. lia.
Qed.

(** *** The channel detector on concrete runs *)

Lemma wraparound_elapsed_witness :
  0 < 32 /\
  0 <= 10 < 2 ^ (32 - 1) /\
  jiffies_sub 32 (jiffies_wrap 32 (4294967290 + 10)) (jiffies_wrap 32 4294967290) = 10 /\
  (forall i pinb c ddrb,
     state c = 1 -> time c = jiffies_wrap 32 4294967290 ->
     state (fst (fsm_channel 32 125000 i (jiffies_wrap 32 (4294967290 + 10)) pinb c ddrb))
     = if 10 >? POWER_ON_JIFFIES then 2 else 1) /\
  (forall i pinb c ddrb,
     state c = 2 -> time c = jiffies_wrap 32 4294967290 ->
     state (fst (fsm_channel 32 125000 i (jiffies_wrap 32 (4294967290 + 10)) pinb c ddrb))
     = if 10 >? SPIN_UP_JIFFIES 125000 then 3 else 2) /\
  (forall i pinb c ddrb,
     sampling_state (state c) -> prev_sample_time c = jiffies_wrap 32 4294967290 ->
     prev_sample_time
       (fst (fsm_channel 32 125000 i (jiffies_wrap 32 (4294967290 + 10)) pinb c ddrb))
     = if 10 >? SAMPLE_JIFFIES 125000
       then jiffies_wrap 32 (4294967290 + 10) else jiffies_wrap 32 4294967290).
Proof.
  split; [lia |]. split; [lia |].
  apply (wraparound_elapsed 32 125000 4294967290 10); lia.
Defined.

(** The two tick values of the witness straddle the maximum of the type. *)
Example wraparound_values :
  jiffies_wrap 32 4294967290 = 4294967290 /\ jiffies_wrap 32 (4294967290 + 10) = 4 /\
  jiffies_sub 32 4 4294967290 = 10.
Proof. vm_compute. auto. Qed.

Lemma state_sequencing_witness :
  Forall (fun s : Z * Z => fst s = 0) [(0, 4)] /\
  0 < 1 < 2 ^ 32 /\
  Forall (fun s : Z * Z => jiffies_sub 32 (fst s) 1 <= 5 * SAMPLE_JIFFIES 125000)
    [(125002, 4); (625001, 0)] /\
  5 * SAMPLE_JIFFIES 125000 < jiffies_sub 32 625002 1 /\
  POWER_ON_JIFFIES = 0 /\ SPIN_UP_JIFFIES 125000 = 5 * SAMPLE_JIFFIES 125000 /\
  let run := fun l => fst (channel_steps 32 125000 0 l channel_zero 0) in
  state (run [(0, 0)]) = 1 /\
  state (run ((0, 0) :: [(0, 4)])) = 1 /\
  state (run ((0, 0) :: [(0, 4)] ++ [(1, 0)])) = 2 /\
  state (run ((0, 0) :: [(0, 4)] ++ (1, 0) :: [(125002, 4); (625001, 0)])) = 2 /\
  state (run ((0, 0) :: [(0, 4)] ++ (1, 0) :: [(125002, 4); (625001, 0)] ++ [(625002, 4)]))
  = 3.
Proof.
  assert (H1 : Forall (fun s : Z * Z => fst s = 0) [(0, 4)]) by (repeat constructor).
  assert (H2 : 0 < 1 < 2 ^ 32) by lia.
  assert (H3 : Forall (fun s : Z * Z => jiffies_sub 32 (fst s) 1 <= 5 * SAMPLE_JIFFIES 125000)
                 [(125002, 4); (625001, 0)])
    by (repeat constructor; vm_compute; discriminate).
  assert (H4 : 5 * SAMPLE_JIFFIES 125000 < jiffies_sub 32 625002 1) by reflexivity.
  split; [exact H1 |]. split; [exact H2 |]. split; [exact H3 |]. split; [exact H4 |].
  exact (state_sequencing 32 125000 0 0 0 [(0, 4)] 1 0 [(125002, 4); (625001, 0)] 625002 4
           H1 H2 H3 H4).
Defined.

(** A window of 52 level changes, closed by a step past the sample time,
    latches [false]; the theorem is applied to the run of a channel in
    Running whose window began at tick 1. *)
Lemma window_boundary_latch_witness :
  let c := mkChannel 3 1 1 true false 0 in
  let l := flat_map (fun k => [(k, 4); (k, 0)])
             [2; 3; 4; 5; 6; 7; 8; 9; 10; 11; 12; 13; 14; 15; 16; 17; 18; 19; 20; 21; 22;
              23; 24; 25; 26; 27] in
  sampling_state (state c) /\ toggles c = 0 /\
  Forall (fun s : Z * Z => window_boundary 32 125000 (fst s) c = false) l /\
  window_boundary 32 125000 125002 c = true /\
  level_changes (prev_input_state c)
    (map (fun s : Z * Z => read_input 0 (snd s)) (l ++ [(125002, 0)])) = 52 /\
  under_threshold (fst (channel_steps 32 125000 0 (l ++ [(125002, 0)]) c 0)) = false.
Proof.
  cbv zeta.
  set (c := mkChannel 3 1 1 true false 0).
  set (l := flat_map _ _).
  assert (H1 : sampling_state (state c)) by (now right).
  assert (H2 : toggles c = 0) by reflexivity.
  assert (H3 : Forall (fun s : Z * Z => window_boundary 32 125000 (fst s) c = false) l)
    by (apply Forall_forall; intros s Hin; vm_compute in Hin;
        repeat (destruct Hin as [<- | Hin]; [reflexivity |]); contradiction).
  assert (H4 : window_boundary 32 125000 125002 c = true) by reflexivity.
  assert (H5 : level_changes (prev_input_state c)
                 (map (fun s : Z * Z => read_input 0 (snd s)) (l ++ [(125002, 0)])) = 52)
    by reflexivity.
  split; [exact H1 |]. split; [exact H2 |]. split; [exact H3 |]. split; [exact H4 |].
  split; [exact H5 |].
  destruct (window_boundary_latch 32 125000 0 c 0) as (_ & _ & W).
  exact (proj1 (W l 125002 0 H1 H2 H3 H4) H5).
Defined.

(** The same runs evaluated: 52 toggles latch [false], 10 toggles latch
    [true]. *)
Example window_of_52_toggles :
  fst (channel_steps 32 125000 0
         (flat_map (fun k => [(k, 4); (k, 0)])
            [2; 3; 4; 5; 6; 7; 8; 9; 10; 11; 12; 13; 14; 15; 16; 17; 18; 19; 20; 21; 22;
             23; 24; 25; 26; 27] ++ [(125002, 0)])
         (mkChannel 3 1 1 true false 0) 0)
  = mkChannel 3 1 125002 false false 0.
Proof. vm_compute. reflexivity. Qed.

Example window_of_10_toggles :
  fst (channel_steps 32 125000 0
         (flat_map (fun k => [(k, 4); (k, 0)]) [2; 3; 4; 5; 6] ++ [(125002, 0)])
         (mkChannel 3 1 1 false false 0) 0)
  = mkChannel 3 1 125002 true false 0.
Proof. vm_compute. reflexivity. Qed.


(** A fan that never turns: in SpinUp the verdict latched after the first
    window is [true] and both outputs are driven low; the pass that ends
    SpinUp leaves them low; the first pass in Running floats them high. *)
Example spin_up_ignores_verdict :
  fsm_steps 32 125000 [(0, fun _ => 0); (1, fun _ => 0); (125002, fun _ => 0)] (g_inst, 0)
  = (mkApp [mkChannel 2 1 125002 true false 0; mkChannel 2 1 125002 true false 0], 3) /\
  fsm_steps 32 125000
    [(0, fun _ => 0); (1, fun _ => 0); (125002, fun _ => 0); (625002, fun _ => 0)]
    (g_inst, 0)
  = (mkApp [mkChannel 3 1 625002 true false 0; mkChannel 3 1 625002 true false 0], 3) /\
  fsm_steps 32 125000
    [(0, fun _ => 0); (1, fun _ => 0); (125002, fun _ => 0); (625002, fun _ => 0);
     (625003, fun _ => 0)]
    (g_inst, 0)
  = (mkApp [mkChannel 3 1 625002 true false 0; mkChannel 3 1 625002 true false 0], 0).
Proof. vm_compute. auto. Qed.

Lemma window_continuity_witness :
  let c := mkChannel 2 1 600000 true false 45 in
  state c = 2 /\
  (forall t p,
     let c' := fst (fsm_channel 32 125000 0 t p c 3) in
     let sampled := spec_sampling_step 32 125000 t (read_input 0 p) c in
     snd (fsm_channel 32 125000 0 t p c 3) = 3 /\
     ((jiffies_sub 32 t (time c) >? SPIN_UP_JIFFIES 125000) = true ->
      c' = set_state 3 sampled /\
      sampling_fields c' = sampling_fields sampled /\
      time c' = time c /\
      (window_boundary 32 125000 t c = false ->
       prev_sample_time c' = prev_sample_time c /\
       under_threshold c' = under_threshold c /\
       toggles c' = (if Bool.eqb (read_input 0 p) (prev_input_state c)
                     then toggles c else uint32 (toggles c + 1)))) /\
     sampling_fields c'
     = sampling_fields (fst (fsm_channel 32 125000 0 t p (set_state 3 c) 3))) /\
  (forall l,
     sampling_fields (fst (channel_steps 32 125000 0 l c 3))
     = sampling_fields (spec_sampling_steps 32 125000 0 l c)).
Proof.
  cbv zeta. split; [reflexivity |].
  apply (window_continuity 32 125000 0 (mkChannel 2 1 600000 true false 45) 3).
  reflexivity.
Defined.

(** The transition taken in the middle of a window: the window that began at
    tick 600000 with 45 toggles so far is still open at tick 625002, where
    SpinUp ends; the toggle of that pass is counted, and the window is closed
    later, in Running, with all its 47 toggles. *)
Example transition_mid_window :
  fst (fsm_channel 32 125000 0 625002 4 (mkChannel 2 1 600000 true false 45) 3)
  = mkChannel 3 1 600000 true true 46 /\
  fst (channel_steps 32 125000 0 [(625002, 4); (725001, 0)]
         (mkChannel 2 1 600000 true false 45) 3)
  = mkChannel 3 1 725001 false false 0.
Proof. vm_compute. auto. Qed.

Lemma fail_safe_witness :
  let st := (mkApp [mkChannel 7 0 0 false false 0; channel_zero], 3) in
  let c := mkChannel 7 0 0 false false 0 in
  well_formed st /\ channel_at 0 st = Some c /\ ~ valid_state (state c) /\
  (forall t pinb,
     channel_at 0 (fsm_run_at 32 125000 t pinb st) = Some c /\
     floating_high 0 (snd (fsm_run_at 32 125000 t pinb st)) = true) /\
  (forall l, l <> [] ->
     channel_at 0 (fsm_steps 32 125000 l st) = Some c /\
     floating_high 0 (snd (fsm_steps 32 125000 l st)) = true).
Proof.
  cbv zeta.
  assert (H : ~ valid_state (state (mkChannel 7 0 0 false false 0))).
  { unfold valid_state. cbn [state]. lia. }
  split; [reflexivity |]. split; [reflexivity |]. split; [exact H |].
  exact (fail_safe 32 125000 0 (mkApp [mkChannel 7 0 0 false false 0; channel_zero], 3)
           (mkChannel 7 0 0 false false 0) eq_refl eq_refl H).
Defined.

(** The state field forced to 7 on channel 0, both outputs driven low: one
    pass floats the output of channel 0 and leaves the channel as it is. *)
Example fail_safe_pass :
  fsm_run_at 32 125000 9 (fun _ => 0)
    (mkApp [mkChannel 7 0 0 false false 0; channel_zero], 3)
  = (mkApp [mkChannel 7 0 0 false false 0; mkChannel 1 9 0 false false 0], 2).
Proof. vm_compute. reflexivity. Qed.

Lemma state_order_witness :
  well_formed (g_inst, 0) /\ channel_at 0 (g_inst, 0) = Some channel_zero /\
  (forall t pinb,
     exists s', state_at 0 (fsm_run_at 32 125000 t pinb (g_inst, 0)) = Some s' /\
                fsm_next (state channel_zero) s') /\
  (forall l1 l2,
     exists s1 s2,
       state_at 0 (fsm_steps 32 125000 l1 (g_inst, 0)) = Some s1 /\
       state_at 0 (fsm_steps 32 125000 (l1 ++ l2) (g_inst, 0)) = Some s2 /\
       s1 <= s2 /\ (valid_state (state channel_zero) -> valid_state s1)) /\
  (forall l1 l2 l3,
     state_at 0 (fsm_steps 32 125000 (l1 ++ l2 ++ l3) (g_inst, 0))
     = state_at 0 (fsm_steps 32 125000 l1 (g_inst, 0)) ->
     state_at 0 (fsm_steps 32 125000 (l1 ++ l2) (g_inst, 0))
     = state_at 0 (fsm_steps 32 125000 l1 (g_inst, 0))) /\
  (state channel_zero = 3 ->
   forall l, state_at 0 (fsm_steps 32 125000 l (g_inst, 0)) = Some 3).
Proof.
  split; [reflexivity |]. split; [reflexivity |].
  exact (state_order 32 125000 0 (g_inst, 0) channel_zero eq_refl eq_refl).
Defined.

Lemma first_verdict_from_window_witness :
  let l := [(0, fun _ : nat => 0); (1, fun _ => 0); (625002, fun _ => 0)] in
  let c := mkChannel 3 1 625002 true false 0 in
  SAMPLE_JIFFIES 125000 <= SPIN_UP_JIFFIES 125000 /\
  (0 < NUM_CHANNELS)%nat /\
  channel_at 0 (fsm_steps 32 125000 l (g_inst, 0)) = Some c /\
  state c = 3 /\
  exists l1 t pinb l2 c1,
    l = l1 ++ (t, pinb) :: l2 /\
    channel_at 0 (fsm_steps 32 125000 l1 (g_inst, 0)) = Some c1 /\
    sampling_state (state c1) /\
    window_boundary 32 125000 t c1 = true /\
    jiffies_sub 32 t (prev_sample_time c1) > SAMPLE_JIFFIES 125000 /\
    under_threshold c
    = ((if Bool.eqb (read_input 0 (pinb 0%nat)) (prev_input_state c1)
        then toggles c1 else uint32 (toggles c1 + 1)) <? TOGGLE_COUNT_THRESHOLD).
Proof.
  cbv zeta.
  assert (H1 : SAMPLE_JIFFIES 125000 <= SPIN_UP_JIFFIES 125000)
    by (vm_compute; discriminate).
  assert (H2 : (0 < NUM_CHANNELS)%nat) by (unfold NUM_CHANNELS; lia).
  split; [exact H1 |]. split; [exact H2 |]. split; [reflexivity |]. split; [reflexivity |].
  exact (first_verdict_from_window 32 125000 0
           [(0, fun _ : nat => 0); (1, fun _ => 0); (625002, fun _ => 0)] 0
           (mkChannel 3 1 625002 true false 0) H1 H2 eq_refl eq_refl).
Defined.

(** *** Further properties on concrete inputs *)

Lemma pin_helpers_frame_witness :
  0 <= 5 < 256 /\
  (0 <= drive_low 1 5 < 256 /\ 0 <= float_high 1 5 < 256) /\
  (driven_low 1 (drive_low 1 5) = true /\ driven_low 1 (float_high 1 5) = false) /\
  (forall n, 0 <= n -> n <> out_pin 1 ->
     Z.testbit (drive_low 1 5) n = Z.testbit 5 n /\
     Z.testbit (float_high 1 5) n = Z.testbit 5 n).
Proof. split; [lia | apply (pin_helpers_frame 1 5); lia]. Defined.

Lemma pin_helpers_compose_witness :
  0 <= 6 < 256 /\
  drive_low 0 (drive_low 0 6) = drive_low 0 6 /\
  float_high 0 (float_high 0 6) = float_high 0 6 /\
  float_high 0 (drive_low 0 6) = float_high 0 6 /\
  drive_low 0 (float_high 0 6) = drive_low 0 6 /\
  (driven_low 0 6 = false -> float_high 0 (drive_low 0 6) = 6) /\
  (driven_low 0 6 = true -> drive_low 0 (float_high 0 6) = 6) /\
  ((0 < 2)%nat -> (1 < 2)%nat -> 0%nat <> 1%nat ->
   drive_low 0 (float_high 1 6) = float_high 1 (drive_low 0 6) /\
   drive_low 0 (drive_low 1 6) = drive_low 1 (drive_low 0 6) /\
   float_high 0 (float_high 1 6) = float_high 1 (float_high 0 6)).
Proof. split; [lia | apply (pin_helpers_compose 0 1 6); lia]. Defined.

(** The helpers on the register value 6 (pin 0 floating, pin 1 driven). *)
Example pin_helpers_values :
  drive_low 0 6 = 7 /\ float_high 1 6 = 4 /\ float_high 0 (drive_low 0 6) = 6 /\
  read_input 0 4 = true /\ read_input 1 4 = false /\ read_input 1 8 = true /\
  read_input 5 8 = true.
Proof. vm_compute. repeat split; reflexivity. Qed.

Lemma ddrb_frame_witness :
  well_formed (g_inst, 12) /\ 0 <= snd (g_inst, 12) < 256 /\
  0 <= snd (fsm_steps 32 125000 [(0, fun _ => 0); (1, fun _ => 0)] (g_inst, 12)) < 256 /\
  forall n, 0 <= n -> n <> PINB0 -> n <> PINB1 ->
    Z.testbit (snd (fsm_steps 32 125000 [(0, fun _ => 0); (1, fun _ => 0)] (g_inst, 12))) n
    = Z.testbit (snd (g_inst, 12)) n.
Proof.
  assert (H : 0 <= snd (g_inst, 12) < 256) by (cbn [snd]; lia).
  split; [reflexivity |]. split; [exact H |].
  exact (ddrb_frame 32 125000 [(0, fun _ => 0); (1, fun _ => 0)] (g_inst, 12) eq_refl H).
Defined.

Lemma channel_isolation_witness :
  let st := (g_inst, 0) in
  let st' := (mkApp [channel_zero; mkChannel 7 5 5 true true 9], 2) in
  let l := [(0, fun _ : nat => 4); (1, fun _ : nat => 4); (2, fun _ : nat => 0)] in
  let l' := [(0, fun i : nat => if (i =? 0)%nat then 5 else 8);
             (1, fun _ : nat => 7); (2, fun _ : nat => 8)] in
  well_formed st /\ well_formed st' /\
  channel_at 0 st = Some channel_zero /\ channel_at 0 st' = Some channel_zero /\
  driven_low 0 (snd st) = driven_low 0 (snd st') /\
  channel_levels 0 (channel_inputs 0 l) = channel_levels 0 (channel_inputs 0 l') /\
  channel_at 0 (fsm_steps 32 125000 l st) = channel_at 0 (fsm_steps 32 125000 l' st') /\
  driven_low 0 (snd (fsm_steps 32 125000 l st))
  = driven_low 0 (snd (fsm_steps 32 125000 l' st')).
Proof.
  cbv zeta.
  split; [reflexivity |]. split; [reflexivity |]. split; [reflexivity |].
  split; [reflexivity |]. split; [reflexivity |]. split; [reflexivity |].
  exact (channel_isolation 32 125000 0
           [(0, fun _ : nat => 4); (1, fun _ : nat => 4); (2, fun _ : nat => 0)]
           [(0, fun i : nat => if (i =? 0)%nat then 5 else 8);
            (1, fun _ : nat => 7); (2, fun _ : nat => 8)]
           (g_inst, 0) (mkApp [channel_zero; mkChannel 7 5 5 true true 9], 2) channel_zero
           eq_refl eq_refl eq_refl eq_refl eq_refl eq_refl).
Defined.

Lemma phase_alignment_witness :
  let l := [(0, fun _ : nat => 0); (1, fun _ : nat => 0);
            (125002, fun i : nat => if (i =? 0)%nat then 4 else 0)] in
  let ci := mkChannel 2 1 125002 true true 0 in
  let cj := mkChannel 2 1 125002 true false 0 in
  (0 < NUM_CHANNELS)%nat /\ (1 < NUM_CHANNELS)%nat /\
  channel_at 0 (fsm_steps 32 125000 l (g_inst, 0)) = Some ci /\
  channel_at 1 (fsm_steps 32 125000 l (g_inst, 0)) = Some cj /\
  state ci = state cj /\ time ci = time cj /\ prev_sample_time ci = prev_sample_time cj.
Proof.
  cbv zeta.
  assert (H0 : (0 < NUM_CHANNELS)%nat) by (unfold NUM_CHANNELS; lia).
  assert (H1 : (1 < NUM_CHANNELS)%nat) by (unfold NUM_CHANNELS; lia).
  split; [exact H0 |]. split; [exact H1 |]. split; [reflexivity |]. split; [reflexivity |].
  exact (phase_alignment 32 125000 0 1
           [(0, fun _ : nat => 0); (1, fun _ : nat => 0);
            (125002, fun i : nat => if (i =? 0)%nat then 4 else 0)] 0
           (mkChannel 2 1 125002 true true 0) (mkChannel 2 1 125002 true false 0)
           H0 H1 eq_refl eq_refl).
Defined.

Lemma power_up_output_witness :
  let l := [(0, fun _ : nat => 4); (0, fun _ : nat => 0)] in
  let c := mkChannel 1 0 0 false false 0 in
  (1 < NUM_CHANNELS)%nat /\
  channel_at 1 (fsm_steps 32 125000 l (g_inst, 0)) = Some c /\
  (state c = 0 \/ state c = 1) /\
  driven_low 1 (snd (fsm_steps 32 125000 l (g_inst, 0))) = driven_low 1 0.
Proof.
  cbv zeta.
  assert (H1 : (1 < NUM_CHANNELS)%nat) by (unfold NUM_CHANNELS; lia).
  assert (H2 : state (mkChannel 1 0 0 false false 0) = 0 \/
               state (mkChannel 1 0 0 false false 0) = 1) by (right; reflexivity).
  split; [exact H1 |]. split; [reflexivity |]. split; [exact H2 |].
  exact (power_up_output 32 125000 1 [(0, fun _ : nat => 4); (0, fun _ : nat => 0)] 0
           (mkChannel 1 0 0 false false 0) H1 eq_refl H2).
Defined.

Lemma verdict_held_within_window_witness :
  let c := mkChannel 3 1 1 true false 0 in
  let l := [(2, 4); (3, 0); (125001, 4)] in
  state c = 3 /\ l <> [] /\
  Forall (fun s : Z * Z => window_boundary 32 125000 (fst s) c = false) l /\
  state (fst (channel_steps 32 125000 0 l c 1)) = 3 /\
  under_threshold (fst (channel_steps 32 125000 0 l c 1)) = under_threshold c /\
  floating_high 0 (snd (channel_steps 32 125000 0 l c 1)) = under_threshold c.
Proof.
  cbv zeta.
  assert (H2 : [(2, 4); (3, 0); (125001, 4)] <> @nil (Z * Z)) by discriminate.
  assert (H3 : Forall (fun s : Z * Z =>
                         window_boundary 32 125000 (fst s) (mkChannel 3 1 1 true false 0)
                         = false) [(2, 4); (3, 0); (125001, 4)])
    by (repeat constructor).
  split; [reflexivity |]. split; [exact H2 |]. split; [exact H3 |].
  exact (verdict_held_within_window 32 125000 0 [(2, 4); (3, 0); (125001, 4)]
           (mkChannel 3 1 1 true false 0) 1 eq_refl H2 H3).
Defined.

Lemma window_sets_output_witness :
  let c := mkChannel 3 1 1 false false 0 in
  let l := [(2, 4); (3, 0)] in
  state c = 3 /\ toggles c = 0 /\
  Forall (fun s : Z * Z => window_boundary 32 125000 (fst s) c = false) l /\
  window_boundary 32 125000 125002 c = true /\
  level_changes (prev_input_state c)
    (map (fun s : Z * Z => read_input 0 (snd s)) (l ++ [(125002, 0)])) < 2 ^ 32 /\
  floating_high 0 (snd (channel_steps 32 125000 0 (l ++ [(125002, 0)]) c 1))
  = (level_changes (prev_input_state c)
       (map (fun s : Z * Z => read_input 0 (snd s)) (l ++ [(125002, 0)]))
     <? TOGGLE_COUNT_THRESHOLD) /\
  driven_low 0 (snd (channel_steps 32 125000 0 (l ++ [(125002, 0)]) c 1))
  = (TOGGLE_COUNT_THRESHOLD <=?
       level_changes (prev_input_state c)
         (map (fun s : Z * Z => read_input 0 (snd s)) (l ++ [(125002, 0)]))).
Proof.
  cbv zeta.
  assert (H3 : Forall (fun s : Z * Z =>
                         window_boundary 32 125000 (fst s) (mkChannel 3 1 1 false false 0)
                         = false) [(2, 4); (3, 0)])
    by (repeat constructor).
  assert (H5 : level_changes (prev_input_state (mkChannel 3 1 1 false false 0))
                 (map (fun s : Z * Z => read_input 0 (snd s))
                    ([(2, 4); (3, 0)] ++ [(125002, 0)])) < 2 ^ 32) by reflexivity.
  split; [reflexivity |]. split; [reflexivity |]. split; [exact H3 |].
  split; [reflexivity |]. split; [exact H5 |].
  exact (window_sets_output 32 125000 0 [(2, 4); (3, 0)] 125002 0
           (mkChannel 3 1 1 false false 0) 1 eq_refl eq_refl H3 eq_refl H5).
Defined.

(** The window of the witness: two toggles, so the output, driven low
    before, is floated high by the pass that closes the window. *)
Example stalled_fan_floats_output :
  channel_steps 32 125000 0 [(2, 4); (3, 0); (125002, 0)] (mkChannel 3 1 1 false false 0) 1
  = (mkChannel 3 1 125002 true false 0, 0).
Proof. vm_compute. reflexivity. Qed.

Lemma start_up_invariant_witness :
  let l := [(0, fun _ : nat => 4); (0, fun _ : nat => 0)] in
  let c := mkChannel 1 0 0 false false 0 in
  (0 < NUM_CHANNELS)%nat /\
  channel_at 0 (fsm_steps 32 125000 l (g_inst, 0)) = Some c /\
  valid_state (state c) /\ 0 <= toggles c < 2 ^ 32 /\
  (state c = 0 \/ state c = 1 ->
   toggles c = 0 /\ under_threshold c = false /\ prev_input_state c = false).
Proof.
  cbv zeta.
  assert (H0 : (0 < NUM_CHANNELS)%nat) by (unfold NUM_CHANNELS; lia).
  split; [exact H0 |]. split; [reflexivity |].
  exact (start_up_invariant 32 125000 0 [(0, fun _ : nat => 4); (0, fun _ : nat => 0)] 0
           (mkChannel 1 0 0 false false 0) H0 eq_refl).
Defined.

Lemma jiffies_frame_witness :
  let w := mkWorld (mkTimer0 0 3 255 false true true 512) [0; 0; 1]%N 767 in
  (2 <= 2)%nat /\
  exists ret w',
    jiffies 32 2 w = Some (ret, w') /\
    SREG_I (hw w') = SREG_I (hw w) /\
    TCCR0A (hw w') = TCCR0A (hw w) /\ TCCR0B (hw w') = TCCR0B (hw w) /\
    TOIE0 (hw w') = TOIE0 (hw w) /\
    (timer_ticks_hi (hw w') = timer_ticks_hi (hw w) \/
     (SREG_I (hw w) = true /\
      timer_ticks_hi (hw w') = jiffies_wrap 32 (timer_ticks_hi (hw w) + 256))) /\
    (SREG_I (hw w) = false ->
     timer_ticks_hi (hw w') = timer_ticks_hi (hw w) /\
     (TOV0 (hw w) = true -> TOV0 (hw w') = true)).
Proof.
  cbv zeta. split; [lia |].
  apply (jiffies_frame 32 2
           (mkWorld (mkTimer0 0 3 255 false true true 512) [0; 0; 1]%N 767)).
  lia.
Defined.

Lemma overflow_accounting_witness :
  let h0 := mkTimer0 2 5 77 true false true 123 in
  SREG_I h0 = true /\
  let h := elapse 32 1000 (jiffies_init 32 h0) in
  TCNT0 h = Z.of_N 1000 mod 256 /\
  timer_ticks_hi h = jiffies_wrap 32 (256 * (Z.of_N 1000 / 256)) /\
  TOV0 h = false /\ SREG_I h = true.
Proof.
  cbv zeta. split; [reflexivity |].
  exact (overflow_accounting 32 (mkTimer0 2 5 77 true false true 123) 1000 eq_refl).
Defined.

(** 1000 counter periods after [jiffies_init]: three rollovers and 232. *)
Example overflow_accounting_values :
  elapse 32 1000 (jiffies_init 32 (mkTimer0 2 5 77 true false true 123))
  = mkTimer0 0 3 232 false true true 768.
Proof. vm_compute. reflexivity. Qed.

Lemma jiffies_masked_call_witness :
  let w := mkWorld (mkTimer0 0 3 10 true true false 0) [1; 2; 3]%N 266 in
  (2 <= 2)%nat /\ SREG_I (hw w) = false /\ clock_consistent 32 (hw w) (elapsed w) /\
  (if TOV0 (hw w) then TCNT0 (hw w) else 0) + schedule_ticks (pending w) < 256 /\
  exists ret w',
    jiffies 32 2 w = Some (ret, w') /\
    (exists u, elapsed w <= u <= elapsed w' /\ ret = jiffies_wrap 32 u) /\
    SREG_I (hw w') = false /\
    timer_ticks_hi (hw w') = timer_ticks_hi (hw w) /\
    clock_consistent 32 (hw w') (elapsed w').
Proof.
  cbv zeta.
  assert (H3 : clock_consistent 32 (mkTimer0 0 3 10 true true false 0) 266).
  { unfold clock_consistent. cbn [TCNT0 TOIE0]. repeat split; try reflexivity; lia. }
  assert (H4 : (if TOV0 (mkTimer0 0 3 10 true true false 0)
                then TCNT0 (mkTimer0 0 3 10 true true false 0) else 0)
               + schedule_ticks [1; 2; 3]%N < 256) by reflexivity.
  split; [lia |]. split; [reflexivity |]. split; [exact H3 |]. split; [exact H4 |].
  exact (jiffies_masked_call 32 2
           (mkWorld (mkTimer0 0 3 10 true true false 0) [1; 2; 3]%N 266)
           ltac:(lia) eq_refl H3 H4).
Defined.

(** The call of the witness: made with interrupts masked and an overflow
    pending, it returns 269, the tick count when the counter was read. *)
Example jiffies_masked_values :
  jiffies 32 2 (mkWorld (mkTimer0 0 3 10 true true false 0) [1; 2; 3]%N 266)
  = Some (269, mkWorld (mkTimer0 0 3 16 true true false 0) [] 272).
Proof. vm_compute. reflexivity. Qed.

Lemma main_runs_fsm_on_clock_witness :
  let h := mkTimer0 0 0 0 false false false 0 in
  let env := [(0%N, @nil N, fun _ : nat => 0); (255%N, [0; 1]%N, fun _ : nat => 4)] in
  (2 <= 2)%nat /\
  exists res,
    jiffies_session 32 2 (sei 32 h) (map fst env) = Some res /\
    length res = length env /\
    main 32 125000 2 h 0 env
    = Some (fsm_steps 32 125000 (combine (returned res) (map snd env)) (g_inst, 0)).
Proof.
  cbv zeta. split; [lia |].
  apply (main_runs_fsm_on_clock 32 125000 2 (mkTimer0 0 0 0 false false false 0) 0
           [(0%N, @nil N, fun _ : nat => 0); (255%N, [0; 1]%N, fun _ : nat => 4)]).
  lia.
Defined.

(** The two passes of the witness: the clock reads 0, then 256 (the counter
    wraps inside the second read); channel 0 and channel 1 enter SpinUp at
    tick 256 and both outputs are driven low. *)
Example main_two_passes :
  main 32 125000 2 (mkTimer0 0 0 0 false false false 0) 0
    [(0%N, @nil N, fun _ : nat => 0); (255%N, [0; 1]%N, fun _ : nat => 4)]
  = Some (mkApp [mkChannel 2 256 256 false false 0; mkChannel 2 256 256 false false 0], 3).
Proof. vm_compute. reflexivity. Qed.

Lemma pull_up_disable_bit_witness :
  0 <= 6 < 8 /\
  Z.testbit (main_pull_up_disable 6 0) 6 = Z.testbit 0 6 /\
  forall n, 0 <= n < 8 ->
    Z.testbit (main_pull_up_disable 6 0) n = Z.testbit 0 n || Z.testbit 6 n.
Proof. split; [lia | apply (pull_up_disable_bit 6 0); lia]. Defined.

(** With [PUD] the bit number 6, the statement turns a cleared [MCUCR] into
    6, bits 1 and 2 set, and bit 6 stays clear. *)
Example pull_up_disable_value :
  main_pull_up_disable 6 0 = 6 /\ Z.testbit (main_pull_up_disable 6 0) 6 = false.
Proof. vm_compute. auto. Qed.

Lemma running_not_before_spin_up_time_witness :
  let h := mkTimer0 0 0 0 false false false 0 in
  let env := [(0%N, @nil N, fun _ : nat => 0); (1%N, @nil N, fun _ : nat => 0);
              (625001%N, @nil N, fun _ : nat => 0)] in
  let c := mkChannel 3 1 625002 true false 0 in
  (2 <= 2)%nat /\ (0 < NUM_CHANNELS)%nat /\
  Forall (fun e : N * list N * (nat -> Z) => schedule_ticks (snd (fst e)) < 256) env /\
  session_ticks (map fst env) < 2 ^ 32 /\
  main 32 125000 2 h 0 env = Some (mkApp [c; c], 3) /\
  channel_at 0 (mkApp [c; c], 3) = Some c /\
  state c = 3 /\
  SPIN_UP_JIFFIES 125000 < session_ticks (map fst env).
Proof.
  cbv zeta.
  assert (H2 : (0 < NUM_CHANNELS)%nat) by (unfold NUM_CHANNELS; lia).
  assert (H3 : Forall (fun e : N * list N * (nat -> Z) => schedule_ticks (snd (fst e)) < 256)
                 [(0%N, @nil N, fun _ : nat => 0); (1%N, @nil N, fun _ : nat => 0);
                  (625001%N, @nil N, fun _ : nat => 0)])
    by (repeat constructor).
  assert (H4 : session_ticks
                 (map fst [(0%N, @nil N, fun _ : nat => 0); (1%N, @nil N, fun _ : nat => 0);
                           (625001%N, @nil N, fun _ : nat => 0)]) < 2 ^ 32)
    by reflexivity.
  assert (H5 : main 32 125000 2 (mkTimer0 0 0 0 false false false 0) 0
                 [(0%N, @nil N, fun _ : nat => 0); (1%N, @nil N, fun _ : nat => 0);
                  (625001%N, @nil N, fun _ : nat => 0)]
               = Some (mkApp [mkChannel 3 1 625002 true false 0;
                              mkChannel 3 1 625002 true false 0], 3))
    by (vm_compute; reflexivity).
  split; [lia |]. split; [exact H2 |]. split; [exact H3 |]. split; [exact H4 |].
  split; [exact H5 |]. split; [reflexivity |]. split; [reflexivity |].
  exact (running_not_before_spin_up_time 32 125000 2 (mkTimer0 0 0 0 false false false 0) 0
           [(0%N, @nil N, fun _ : nat => 0); (1%N, @nil N, fun _ : nat => 0);
            (625001%N, @nil N, fun _ : nat => 0)]
           0 (mkApp [mkChannel 3 1 625002 true false 0; mkChannel 3 1 625002 true false 0], 3)
           (mkChannel 3 1 625002 true false 0)
           ltac:(lia) H2 H3 H4 H5 eq_refl eq_refl).
Defined.
